(** * gocover-cobertura: the conversion pipeline of [gocover-cobertura.go]

    A shallow embedding of [convert], [parseProfiles], [parseFile], the
    [fileVisitor] methods and [stripKnownSources], together with the pieces
    of the Go standard library they call ([strings], [path/filepath]).

    Go strings are byte sequences: they are modelled as [string], one
    [ascii] per byte; a [[]byte] is modelled with the bytes its backing
    array holds beyond its length.  The path separator is the one of a
    Unix build ([os.PathSeparator = '/']). *)

From Stdlib Require Import ZArith QArith Ascii String.
From stdpp Require Import base option list gmap strings fin_maps.

Open Scope string_scope.
Open Scope list_scope.

(** ** Outcomes: a Go call either returns or panics *)

Inductive Outcome (A : Type) : Type :=
| Done (a : A)
| Panic (msg : string).
Arguments Done {A} a.
Arguments Panic {A} msg.

#[global] Instance Outcome_ret : MRet Outcome := fun _ a => Done a.
#[global] Instance Outcome_bind : MBind Outcome := fun _ _ f m =>
  match m with
  | Done a => f a
  | Panic msg => Panic msg
  end.

Definition returns {A} (m : Outcome A) : Prop := exists a, m = Done a.

(** ** Package [strings] and [path/filepath] on byte strings *)

Module GoStrings.

Definition byte (c : ascii) : N := N_of_ascii c.

Definition PathSeparator : ascii := "/"%char.

(** A [[]byte]: the bytes up to its length, and the bytes its backing
    array holds beyond its length, up to its capacity. *)
Record ByteSlice := mkBytes {
  visible : string;
  beyond : string }.

Definition len (b : ByteSlice) : nat := String.length (visible b).
Definition cap (b : ByteSlice) : nat := len b + String.length (beyond b).

(** A slice that fills its backing array. *)
Definition exactly (s : string) : ByteSlice := {| visible := s; beyond := EmptyString |}.

(** [string(b[lo:hi])] for a [[]byte]: the run-time check of a slice
    expression on a slice panics unless [lo <= hi <= cap(b)], and the
    result may hold bytes beyond [len(b)]. *)
Definition slice (b : ByteSlice) (lo hi : nat) : Outcome string :=
  if decide (lo <= hi <= cap b)
  then Done (substring lo (hi - lo) (visible b +:+ beyond b))
  else Panic "slice bounds out of range".

Fixpoint HasPrefix (s prefix : string) {struct prefix} : bool :=
  match prefix, s with
  | EmptyString, _ => true
  | String p prefix', String c s' =>
      if Ascii.eqb c p then HasPrefix s' prefix' else false
  | String _ _, EmptyString => false
  end.

Fixpoint drop (n : nat) (s : string) : string :=
  match n, s with
  | O, _ => s
  | S n', String _ s' => drop n' s'
  | S _, EmptyString => EmptyString
  end.

(** [strings.TrimPrefix]: [s] without the leading [prefix], or [s] itself. *)
Definition TrimPrefix (s prefix : string) : string :=
  if HasPrefix s prefix then drop (String.length prefix) s else s.

Fixpoint rev (s : string) : string :=
  match s with
  | EmptyString => EmptyString
  | String c s' => rev s' +:+ String c EmptyString
  end.

Definition HasSuffix (s suffix : string) : bool :=
  HasPrefix (rev s) (rev suffix).

(** [strings.TrimSuffix]: removes ONE trailing occurrence of [suffix]. *)
Definition TrimSuffix (s suffix : string) : string :=
  if HasSuffix s suffix
  then substring 0 (String.length s - String.length suffix) s
  else s.

(** [strings.TrimLeft(s, cutset)] for a cutset of one ASCII byte: every
    leading occurrence of that byte is removed. *)
Fixpoint TrimLeft (s : string) (cut : ascii) : string :=
  match s with
  | String c s' => if Ascii.eqb c cut then TrimLeft s' cut else s
  | EmptyString => EmptyString
  end.

(** [strings.TrimRight(s, cutset)] for a cutset of one ASCII byte. *)
Definition TrimRight (s : string) (cut : ascii) : string :=
  rev (TrimLeft (rev s) cut).

(** [unicode.IsSpace] on UTF-8: the ASCII spaces are single bytes, the
    others are U+0085 and U+00A0 (two bytes) and U+1680, U+2000..U+200A,
    U+2028, U+2029, U+202F, U+205F, U+3000 (three bytes). *)
Definition space1 (a : ascii) : bool :=
  let n := byte a in
  ((9 <=? n) && (n <=? 13) || (n =? 32))%N.

Definition space2 (a b : ascii) : bool :=
  ((byte a =? 194) && ((byte b =? 133) || (byte b =? 160)))%N.

Definition space3 (a b c : ascii) : bool :=
  let '(x, y, z) := (byte a, byte b, byte c) in
  ((x =? 225) && (y =? 154) && (z =? 128)
   || (x =? 226) && (y =? 128)
      && ((128 <=? z) && (z <=? 138) || (z =? 168) || (z =? 169) || (z =? 175))
   || (x =? 226) && (y =? 129) && (z =? 159)
   || (x =? 227) && (y =? 128) && (z =? 128))%N.

(** Removes leading runes as long as they satisfy the three tests; [s2]
    and [s3] receive the bytes in the order they stand in the string. *)
Fixpoint trimFront (s1 : ascii -> bool) (s2 : ascii -> ascii -> bool)
    (s3 : ascii -> ascii -> ascii -> bool) (s : string) : string :=
  match s with
  | EmptyString => EmptyString
  | String a r1 =>
      if s1 a then trimFront s1 s2 s3 r1 else
      match r1 with
      | EmptyString => s
      | String b r2 =>
          if s2 a b then trimFront s1 s2 s3 r2 else
          match r2 with
          | EmptyString => s
          | String c r3 =>
              if s3 a b c then trimFront s1 s2 s3 r3 else s
          end
      end
  end.

Definition TrimLeftSpace (s : string) : string :=
  trimFront space1 space2 space3 s.

Definition TrimRightSpace (s : string) : string :=
  rev (trimFront space1 (fun a b => space2 b a)
         (fun a b c => space3 c b a) (rev s)).

(** [strings.TrimSpace]. *)
Definition TrimSpace (s : string) : string :=
  TrimRightSpace (TrimLeftSpace s).

(** Index one past the last separator of [path], 0 when there is none. *)
Fixpoint afterLastSep (path : string) : nat :=
  match path with
  | EmptyString => 0
  | String c r =>
      match afterLastSep r with
      | O => if Ascii.eqb c PathSeparator then 1 else 0
      | S k => S (S k)
      end
  end.

(** [filepath.Split]: the directory, with its final separator, and the
    file name. *)
Definition Split (path : string) : string * string :=
  let i := afterLastSep path in
  (substring 0 i path, drop i path).

End GoStrings.
Import GoStrings.

(** ** The report model

    The struct declarations are not part of [gocover-cobertura.go]; the
    fields are the ones its composite literals and selectors use, [Line]
    has the two attributes of a [<line>] element. *)

Record Line := mkLine {
  Line_Number : Z;
  Line_Hits : Z }.

Record Method := mkMethod {
  Method_Name : string;
  Method_Lines : list Line }.

Record Class := mkClass {
  Class_Name : string;
  Class_Filename : string;
  Class_Methods : list Method;
  Class_Lines : list Line }.

Record Package := mkPackage {
  Package_Name : string;
  Package_Classes : list Class }.

Record Source := mkSource { Source_Path : string }.

Record Coverage := mkCoverage {
  Coverage_Sources : list Source;
  Coverage_Packages : list Package;
  Coverage_Timestamp : Z }.

(** ** Coverage profiles, as [ParseProfiles] returns them *)

Record ProfileBlock := mkBlock {
  StartLine : Z; StartCol : Z;
  EndLine : Z; EndCol : Z;
  NumStmt : Z; Count : Z }.

Record Profile := mkProfile {
  FileName : string;
  Blocks : list ProfileBlock }.

(** ** The syntax tree, as far as [ast.Walk] and [Visit] look at it

    [Field] carries the byte offsets [fset.Position(Type.Pos()).Offset]
    and [fset.Position(Type.End()).Offset] of its type expression.
    [FuncDecl_Recv] is [None] for [n.Recv == nil], otherwise the receiver's
    field list, which the parser may leave empty.  The two line numbers are
    those of [n.Pos()] and [n.End()]. *)

Record Field := mkField {
  Type_Pos : nat;
  Type_End : nat }.

Record FuncDecl := mkFuncDecl {
  FuncDecl_Name : string;
  FuncDecl_Recv : option (list Field);
  FuncDecl_Line : Z;
  FuncDecl_EndLine : Z }.

(** The nodes of a file in the order [ast.Walk] hands them to [Visit]
    (depth first); every node that is not a function declaration, and the
    [nil] that closes the visit of a node, is [OtherNode]. *)
Inductive Node :=
| FuncDeclNode (n : FuncDecl)
| OtherNode.

Definition File := list Node.

(** ** [fileVisitor]

    Of the visitor's fields, [Visit] reads [name] and [data] and updates
    [classes].  The map holds pointers, and every pointer it holds was
    created for its own key, so the [Class] objects are modelled as the
    values of the map and a [*Class] as the key it is stored under. *)

Record fileVisitor := mkVisitor {
  v_name : string;
  v_data : ByteSlice;
  v_classes : gmap string Class }.

Definition setClasses (v : fileVisitor) (m : gmap string Class) : fileVisitor :=
  {| v_name := v_name v; v_data := v_data v; v_classes := m |}.

(** [fileVisitor.recvName] *)
Definition recvName (v : fileVisitor) (n : FuncDecl) : Outcome string :=
  match FuncDecl_Recv n with
  | None => Done "-"
  | Some List =>
      match List !! 0%nat with
      | None => Panic "index out of range"
      | Some recv =>
          name ← slice (v_data v) (Type_Pos recv) (Type_End recv);
          Done (TrimSpace (TrimLeft name "*"))
      end
  end.

(** [fileVisitor.method] *)
Definition method (v : fileVisitor) (n : FuncDecl) : Method :=
  {| Method_Name := FuncDecl_Name n; Method_Lines := [] |}.

(** [fileVisitor.class]: the pointer returned is the key [className]. *)
Definition class (v : fileVisitor) (n : FuncDecl) : Outcome (string * fileVisitor) :=
  className ← recvName v n;
  match v_classes v !! className with
  | Some _ => Done (className, v)
  | None =>
      let c := {| Class_Name := className; Class_Filename := v_name v;
                  Class_Methods := []; Class_Lines := [] |} in
      Done (className, setClasses v (<[className := c]> (v_classes v)))
  end.

(** The two appends of [Visit] on the class behind the pointer. *)
Definition addMethod (m : Method) (c : Class) : Class :=
  {| Class_Name := Class_Name c; Class_Filename := Class_Filename c;
     Class_Methods := Class_Methods c ++ [m];
     Class_Lines := foldl (fun ls line => ls ++ [line]) (Class_Lines c) (Method_Lines m) |}.

(** [fileVisitor.Visit] *)
Definition Visit (v : fileVisitor) (node : Node) : Outcome fileVisitor :=
  match node with
  | FuncDeclNode n =>
      '(cls, v1) ← class v n;
      let m := method v1 n in
      Done (setClasses v1 (alter (addMethod m) cls (v_classes v1)))
  | OtherNode => Done v
  end.

(** [ast.Walk(visitor, file)]: [Visit] returns the visitor itself, so every
    node of the file is visited, in order. *)
Fixpoint Walk (v : fileVisitor) (f : File) : Outcome fileVisitor :=
  match f with
  | [] => Done v
  | node :: rest => v1 ← Visit v node; Walk v1 rest
  end.

(** ** What the language leaves open

    A [for ... range] over a map enumerates it in an order the runtime
    chooses anew each time: a [RangeOrder] is one such choice, applied to the
    entries of the map.  The variable of a [for ... range] is one variable
    for the whole loop up to Go 1.21 and one per iteration from Go 1.22 on. *)

Definition RangeOrder := list (string * Class) -> list (string * Class).

Definition fair (o : RangeOrder) : Prop := forall l, o l ≡ₚ l.

Inductive LoopVar := PerLoop | PerIteration.

Inductive error := ErrNotFound | ErrSyntax | ErrRead.

(** [stripKnownSources] *)
Fixpoint stripKnownSources (sources : list Source) (fileName : string) : string :=
  match sources with
  | [] => fileName
  | source :: rest =>
      let prefix := Source_Path source in
      let prefix := TrimSuffix prefix (String PathSeparator EmptyString)
                    +:+ String PathSeparator EmptyString in
      if HasPrefix fileName prefix
      then TrimPrefix fileName prefix
      else stripKnownSources rest fileName
  end.

(** ** The conversion *)

Section Conversion.

(** How the compiler treats the variable of a [for ... range]. *)
Variable loopVar : LoopVar.

(** [findFile], which is not in [gocover-cobertura.go]: the absolute path
    of a package-relative file name, or an error. *)
Variable findFile : string -> option string.

(** The file system (the content of the file at a path, if it can be
    read) and [go/parser] on a file's content ([None]: a syntax error). *)
Variable readFile : string -> option ByteSlice.
Variable parseSource : string -> option File.

(** [parser.ParseFile(fset, path, nil, 0)] reads the file and parses it. *)
Definition ParseFile (path : string) : option File :=
  src ← readFile path; parseSource (visible src).

(** The loop of [parseFile] that looks [pkgPath] up in [cov.Packages].
    [pkg = &p] points to the loop's variable: with one variable per loop
    it holds, after the loop, the last element ranged over; with one per
    iteration it holds the element that matched last. *)
Definition rangeFind (packages : list Package) (pkgPath : string) : option Package :=
  match loopVar with
  | PerIteration =>
      foldl (fun pkg p => if String.eqb (Package_Name p) pkgPath then Some p else pkg)
            None packages
  | PerLoop =>
      let '(found, p) :=
        foldl (fun '(found, _) p =>
                 (found || String.eqb (Package_Name p) pkgPath, Some p))
              (false, None) packages in
      if found then p else None
  end.

(** [Coverage.parseFile]: the error it returns, and the accumulator. *)
Definition parseFile (order : RangeOrder) (cov : Coverage) (fileName : string)
    : Outcome (option error * Coverage) :=
  match findFile fileName with
  | None => Done (Some ErrNotFound, cov)
  | Some absFilePath =>
      match ParseFile absFilePath with
      | None => Done (Some ErrSyntax, cov)
      | Some parsed =>
          match readFile absFilePath with
          | None => Done (Some ErrRead, cov)
          | Some data =>
              let pkgPath := (Split fileName).1 in
              let pkgPath := TrimRight pkgPath PathSeparator in
              let pkg :=
                match rangeFind (Coverage_Packages cov) pkgPath with
                | Some p => p
                | None => {| Package_Name := pkgPath; Package_Classes := [] |}
                end in
              let visitor := {| v_name := fileName; v_data := data; v_classes := ∅ |} in
              visitor ← Walk visitor parsed;
              let pkg :=
                foldl (fun pkg c =>
                         {| Package_Name := Package_Name pkg;
                            Package_Classes := Package_Classes pkg ++ [c.2] |})
                      pkg (order (map_to_list (v_classes visitor))) in
              Done (None,
                    {| Coverage_Sources := Coverage_Sources cov;
                       Coverage_Packages := Coverage_Packages cov ++ [pkg];
                       Coverage_Timestamp := Coverage_Timestamp cov |})
          end
      end
  end.

(** The loop of [parseProfiles]; the [i]-th profile's class map is
    enumerated in the order [orders i].  The error of [parseFile] is
    dropped. *)
Fixpoint parseEach (orders : nat -> RangeOrder) (i : nat) (cov : Coverage)
    (profiles : list Profile) : Outcome Coverage :=
  match profiles with
  | [] => Done cov
  | profile :: rest =>
      '(_, cov1) ← parseFile (orders i) cov (FileName profile);
      parseEach orders (S i) cov1 rest
  end.

(** [Coverage.parseProfiles] *)
Definition parseProfiles (orders : nat -> RangeOrder) (cov : Coverage)
    (profiles : list Profile) : Outcome Coverage :=
  let cov := {| Coverage_Sources := Coverage_Sources cov;
                Coverage_Packages := [];
                Coverage_Timestamp := Coverage_Timestamp cov |} in
  parseEach orders 0 cov profiles.

(** [ParseProfiles], which is not in [gocover-cobertura.go]: the profiles
    of the input text, or an error. *)
Variable ParseProfiles : string -> option (list Profile).

(** [build.Default.SrcDirs()] and [time.Now().UnixNano()]. *)
Variable SrcDirs : list string.
Variable UnixNano : Z.

(** [encoder.Encode(coverage)] with the indentation set by [convert]: the
    bytes it writes, and whether it returned an error. *)
Variable Encode : Coverage -> string * bool.

Definition quote : string := String (ascii_of_nat 34) EmptyString.
Definition newline : string := String (ascii_of_nat 10) EmptyString.

(** [xml.Header] *)
Definition Header : string :=
  "<?xml version=" +:+ quote +:+ "1.0" +:+ quote +:+ " encoding=" +:+ quote
    +:+ "UTF-8" +:+ quote +:+ "?>" +:+ newline.

Definition Doctype : string :=
  "<!DOCTYPE coverage SYSTEM " +:+ quote
    +:+ "http://cobertura.sourceforge.net/xml/coverage-03.dtd" +:+ quote
    +:+ ">" +:+ newline.

(** [convert]: the bytes written to [out], and how the call ended. *)
Definition convert (orders : nat -> RangeOrder) (input : string)
    : string * Outcome unit :=
  match ParseProfiles input with
  | None => (EmptyString, Panic "Can't parse profiles")
  | Some profiles =>
      let sources := map mkSource SrcDirs in
      let coverage := {| Coverage_Sources := sources;
                         Coverage_Packages := [];
                         Coverage_Timestamp := Z.quot UnixNano 1000000 |} in
      match parseProfiles orders coverage profiles with
      | Panic msg => (EmptyString, Panic msg)
      | Done coverage =>
          let out := Header +:+ Doctype in
          let '(xml, failed) := Encode coverage in
          let out := out +:+ xml in
          if failed then (out, Panic "encode")
          else (out +:+ newline, Done tt)
      end
  end.

End Conversion.

(** ** Auxiliary notions used in the statements *)

#[global] Instance Outcome_eq_dec {A} `{EqDecision A} : EqDecision (Outcome A).
Proof. solve_decision. Defined.

(** The function declarations of a file, in source order. *)
Definition declsOf (f : File) : list FuncDecl :=
  omap (fun node => match node with FuncDeclNode n => Some n | OtherNode => None end) f.

(** The declarations of [f] whose owner-type name is [cn]. *)
Definition declsNamed (v : fileVisitor) (cn : string) (f : File) : list FuncDecl :=
  filter (fun n => recvName v n = Done cn) (declsOf f).

(** The class [class] creates, and a class after [Visit] merged [ms]. *)
Definition newClass (v : fileVisitor) (cn : string) : Class :=
  {| Class_Name := cn; Class_Filename := v_name v; Class_Methods := []; Class_Lines := [] |}.

Definition merged (c : Class) (ms : list Method) : Class :=
  foldl (fun c m => addMethod m c) c ms.

(** The classes [parseFile] appends for a visitor, in enumeration order. *)
Definition contribution (order : RangeOrder) (v : fileVisitor) : list Class :=
  (order (map_to_list (v_classes v))).*2.

(** The class a walk from the empty map leaves under [cn] when [ns] are
    the declarations of that name. *)
Definition classOf (v : fileVisitor) (cn : string) (ns : list FuncDecl) : Class :=
  {| Class_Name := cn; Class_Filename := v_name v;
     Class_Methods := map (method v) ns;
     Class_Lines := concat (map (fun n => Method_Lines (method v n)) ns) |}.

(** The classes of [cn] after a walk over declarations with the methods
    [ms], when the walk started with [o] under that key. *)
Definition afterWalk (v : fileVisitor) (cn : string) (o : option Class)
    (ms : list Method) : option Class :=
  match o, ms with
  | None, [] => None
  | _, _ => Some (merged (default (newClass v cn) o) ms)
  end.

(** The package key of a file, the package [parseFile] starts from, and the
    accumulator with one more package. *)
Definition pkgPathOf (fileName : string) : string :=
  TrimRight (Split fileName).1 PathSeparator.

Definition basePackage (loopVar : LoopVar) (cov : Coverage) (fileName : string) : Package :=
  default {| Package_Name := pkgPathOf fileName; Package_Classes := [] |}
          (rangeFind loopVar (Coverage_Packages cov) (pkgPathOf fileName)).

Definition addClasses (pkg : Package) (cs : list Class) : Package :=
  {| Package_Name := Package_Name pkg; Package_Classes := Package_Classes pkg ++ cs |}.

Definition addPackage (cov : Coverage) (pkg : Package) : Coverage :=
  {| Coverage_Sources := Coverage_Sources cov;
     Coverage_Packages := Coverage_Packages cov ++ [pkg];
     Coverage_Timestamp := Coverage_Timestamp cov |}.

(** The prefix [stripKnownSources] tests for a source. *)
Definition rootPrefix (source : Source) : string :=
  TrimSuffix (Source_Path source) (String PathSeparator EmptyString)
    +:+ String PathSeparator EmptyString.

(** The orders of a run from which the [k]-th profile entry is left out. *)
Definition skipOrder (k : nat) (orders : nat -> RangeOrder) : nat -> RangeOrder :=
  fun i => if decide (i < k) then orders i else orders (S i).

(** Two reports with the same packages, the classes of each up to order. *)
Definition samePackage (p q : Package) : Prop :=
  Package_Name p = Package_Name q /\ Package_Classes p ≡ₚ Package_Classes q.

(** Two reports with the same sources, timestamp and packages, the classes
    of each package up to order. *)
Definition sameReport (c1 c2 : Coverage) : Prop :=
  Coverage_Sources c1 = Coverage_Sources c2 /\
  Coverage_Timestamp c1 = Coverage_Timestamp c2 /\
  Forall2 samePackage (Coverage_Packages c1) (Coverage_Packages c2).

(** Two calls that end the same way: the same panic, or the same error
    with reports that are the same in the sense above. *)
Definition sameOutcome {E} (r1 r2 : Outcome (E * Coverage)) : Prop :=
  match r1, r2 with
  | Done (e1, c1), Done (e2, c2) => e1 = e2 /\ sameReport c1 c2
  | Panic m1, Panic m2 => m1 = m2
  | _, _ => False
  end.

(** Two runs that end the same way. *)
Definition sameRun (r1 r2 : Outcome Coverage) : Prop :=
  match r1, r2 with
  | Done c1, Done c2 => sameReport c1 c2
  | Panic m1, Panic m2 => m1 = m2
  | _, _ => False
  end.

(** No line anywhere below a package. *)
Definition noLines (p : Package) : Prop :=
  Forall (fun c => Class_Lines c = [] /\
                   Forall (fun m => Method_Lines m = []) (Class_Methods c))
         (Package_Classes p).

(** ** The specification's reading, for comparison with the code *)

Module Spec.

(** Sum of the [hits] of a list of lines. *)
Definition hitsSum (lines : list Line) : Z :=
  foldr (fun l acc => (Line_Hits l + acc)%Z) 0%Z lines.

(** A block's line range overlaps the range [lo..hi]. *)
Definition overlaps (lo hi : Z) (b : ProfileBlock) : bool :=
  ((StartLine b <=? hi) && (lo <=? EndLine b))%Z.

(** Sum of the hit counts of the blocks overlapping a declaration. *)
Definition blockHits (blocks : list ProfileBlock) (n : FuncDecl) : Z :=
  foldr (fun b acc => (Count b + acc)%Z) 0%Z
        (List.filter (overlaps (FuncDecl_Line n) (FuncDecl_EndLine n)) blocks).

(** A root made to end in exactly one separator. *)
Definition oneSeparator (root : string) : string :=
  TrimRight root PathSeparator +:+ String PathSeparator EmptyString.

(** The path normalizer as the specification words it. *)
Fixpoint stripKnownSources_spec (sources : list Source) (fileName : string) : string :=
  match sources with
  | [] => fileName
  | source :: rest =>
      if HasPrefix fileName (oneSeparator (Source_Path source))
      then TrimPrefix fileName (oneSeparator (Source_Path source))
      else stripKnownSources_spec rest fileName
  end.

End Spec.

(** ** Rates

    Modelled from the spec: the rate computation, which happens at
    serialization time in code that is not in [gocover-cobertura.go].
    [line-rate = (lines with hit-count > 0) / (total lines)], 0 when there
    is no line; [branch-rate] is reported equal to [line-rate]. *)

Module Rates.

Definition hit (l : Line) : bool := (0 <? Line_Hits l)%Z.

Definition lineRate (lines : list Line) : Q :=
  match lines with
  | [] => 0
  | _ :: _ =>
      Z.of_nat (length (List.filter hit lines))
        # Pos.of_nat (length lines)
  end.

Definition Method_LineRate (m : Method) : Q := lineRate (Method_Lines m).
Definition Class_LineRate (c : Class) : Q := lineRate (Class_Lines c).
Definition Package_Lines (p : Package) : list Line :=
  concat (map Class_Lines (Package_Classes p)).
Definition Package_LineRate (p : Package) : Q := lineRate (Package_Lines p).
Definition Coverage_LineRate (cov : Coverage) : Q :=
  lineRate (concat (map Package_Lines (Coverage_Packages cov))).

Definition Method_BranchRate (m : Method) : Q := Method_LineRate m.
Definition Class_BranchRate (c : Class) : Q := Class_LineRate c.
Definition Package_BranchRate (p : Package) : Q := Package_LineRate p.
Definition Coverage_BranchRate (cov : Coverage) : Q := Coverage_LineRate cov.

End Rates.

(** ** A source tree and profiles to run the conversion on *)

Module Example.

Definition nl : string := String (ascii_of_nat 10) EmptyString.

Fixpoint assoc {A} (k : string) (l : list (string * A)) : option A :=
  match l with
  | [] => None
  | (k', a) :: rest => if String.eqb k k' then Some a else assoc k rest
  end.

(** Line 3 to 5 of [foo.go] hold its only function. *)
Definition foo_go : string :=
  "package foo" +:+ nl +:+ nl +:+ "func f() {" +:+ nl +:+ "return" +:+ nl +:+ "}" +:+ nl.
Definition foo_f : FuncDecl :=
  {| FuncDecl_Name := "f"; FuncDecl_Recv := None; FuncDecl_Line := 3; FuncDecl_EndLine := 5 |}.

(** A free function and a method on a pointer receiver; the receiver's
    type [*Widget] stands at bytes 30 to 37. *)
Definition x_go : string :=
  "package a" +:+ nl +:+ "func f() {}" +:+ nl +:+ "func (w *Widget) g() {}" +:+ nl.
Definition x_f : FuncDecl :=
  {| FuncDecl_Name := "f"; FuncDecl_Recv := None; FuncDecl_Line := 2; FuncDecl_EndLine := 2 |}.
Definition x_g : FuncDecl :=
  {| FuncDecl_Name := "g"; FuncDecl_Recv := Some [mkField 30 37];
     FuncDecl_Line := 3; FuncDecl_EndLine := 3 |}.

(** A file without function declarations. *)
Definition y_go : string := "package a" +:+ nl +:+ "var n int" +:+ nl.

(** A method on a value receiver; [Widget] stands at bytes 18 to 24. *)
Definition v_go : string := "package a" +:+ nl +:+ "func (w Widget) k() {}" +:+ nl.
Definition v_k : FuncDecl :=
  {| FuncDecl_Name := "k"; FuncDecl_Recv := Some [mkField 18 24];
     FuncDecl_Line := 2; FuncDecl_EndLine := 2 |}.

(** A declaration with an empty receiver list, which the parser accepts. *)
Definition z_go : string := "package a" +:+ nl +:+ "func () h() {}" +:+ nl.
Definition z_h : FuncDecl :=
  {| FuncDecl_Name := "h"; FuncDecl_Recv := Some [];
     FuncDecl_Line := 2; FuncDecl_EndLine := 2 |}.

(** Not a Go file. *)
Definition bad_go : string := "package a" +:+ nl +:+ "func {" +:+ nl.

Definition files : list (string * string) :=
  [ ("/go/src/foo.go", foo_go); ("/go/src/a/x.go", x_go); ("/go/src/a/y.go", y_go);
    ("/go/src/a/v.go", v_go); ("/go/src/a/z.go", z_go); ("/go/src/a/bad.go", bad_go) ].

(** [ioutil.ReadFile] in the example: three spare zero bytes after the
    content. *)
Definition spare : string :=
  String (ascii_of_nat 0) (String (ascii_of_nat 0) (String (ascii_of_nat 0) EmptyString)).

Definition readFile (path : string) : option ByteSlice :=
  (fun content => {| visible := content; beyond := spare |}) <$> assoc path files.

Definition parseSource (src : string) : option File :=
  assoc src
    [ (foo_go, [OtherNode; OtherNode; FuncDeclNode foo_f; OtherNode; OtherNode]);
      (x_go, [OtherNode; OtherNode; FuncDeclNode x_f; OtherNode;
              FuncDeclNode x_g; OtherNode; OtherNode]);
      (y_go, [OtherNode; OtherNode; OtherNode; OtherNode]);
      (v_go, [OtherNode; OtherNode; FuncDeclNode v_k; OtherNode; OtherNode]);
      (z_go, [OtherNode; OtherNode; FuncDeclNode z_h; OtherNode; OtherNode]) ].

Definition SrcDirs : list string := ["/usr/lib/go/src"; "/go/src"].

(** The first root under which the file exists. *)
Definition findFile (fileName : string) : option string :=
  List.find (fun path => bool_decide (is_Some (readFile path)))
            (map (fun dir => dir +:+ "/" +:+ fileName) SrcDirs).

Definition block_3_5 : ProfileBlock :=
  {| StartLine := 3; StartCol := 1; EndLine := 5; EndCol := 2; NumStmt := 2; Count := 1 |}.

Definition foo_profile : string :=
  "mode: set" +:+ nl +:+ "foo.go:3.1,5.2 2 1" +:+ nl.
Definition x_profile : string :=
  "mode: set" +:+ nl +:+ "a/x.go:2.10,2.12 0 1" +:+ nl.

(** The profile texts the example parser knows. *)
Definition ParseProfiles (input : string) : option (list Profile) :=
  assoc input
    [ (foo_profile, [mkProfile "foo.go" [block_3_5]]);
      (x_profile, [mkProfile "a/x.go" [mkBlock 2 10 2 12 0 1]]) ].

Definition cov0 : Coverage :=
  {| Coverage_Sources := map mkSource SrcDirs; Coverage_Packages := [];
     Coverage_Timestamp := 0 |}.

Definition inOrder : nat -> RangeOrder := fun _ l => l.
Definition reversed : nat -> RangeOrder := fun _ l => reverse l.

Definition run (lv : LoopVar) (orders : nat -> RangeOrder) (names : list string)
    : Outcome Coverage :=
  parseProfiles lv findFile readFile parseSource orders cov0
    (map (fun n => mkProfile n []) names).

End Example.

(** ** Notions for whole runs *)

(** The number of methods the classes of a map hold. *)
Definition totalMethods (m : gmap string Class) : nat :=
  sum_list_with (fun kc : string * Class => length (Class_Methods kc.2)) (map_to_list m).

(** A byte occurs in a string. *)
Fixpoint contains (c : ascii) (s : string) : bool :=
  match s with
  | EmptyString => false
  | String d r => Ascii.eqb d c || contains c r
  end.

(** The name of a package is [x]. *)
Definition named (x : string) (p : Package) : bool := String.eqb (Package_Name p) x.

Section RunNotions.

Variable findFile : string -> option string.
Variable readFile : string -> option ByteSlice.
Variable parseSource : string -> option File.

(** A file that is found and parses. *)
Definition usable (fileName : string) : bool :=
  match findFile fileName with
  | Some path =>
      match ParseFile readFile parseSource path with Some _ => true | None => false end
  | None => false
  end.

(** The visitor [parseFile] has after its walk over a file, when the file
    is found and parses and the walk returns. *)
Definition walked (fileName : string) : option fileVisitor :=
  path ← findFile fileName;
  parsed ← ParseFile readFile parseSource path;
  data ← readFile path;
  match Walk {| v_name := fileName; v_data := data; v_classes := ∅ |} parsed with
  | Done v => Some v
  | Panic _ => None
  end.

(** The classes the files of directory [d] contribute, in the order of
    the profile entries, the [i]-th entry enumerated in the order
    [orders i]. *)
Fixpoint dirClasses (orders : nat -> RangeOrder) (i : nat) (d : string)
    (profiles : list Profile) : list Class :=
  match profiles with
  | [] => []
  | p :: rest =>
      (if String.eqb (pkgPathOf (FileName p)) d
       then match walked (FileName p) with
            | Some v => contribution (orders i) v
            | None => []
            end
       else [])
      ++ dirClasses orders (S i) d rest
  end.

(** All the function declarations of the file have the same owner-type
    name. *)
Definition oneOwner (fileName : string) : Prop :=
  forall path parsed data n1 n2,
    findFile fileName = Some path ->
    ParseFile readFile parseSource path = Some parsed ->
    readFile path = Some data ->
    n1 ∈ declsOf parsed -> n2 ∈ declsOf parsed ->
    let v := {| v_name := fileName; v_data := data; v_classes := ∅ |} in
    recvName v n1 = recvName v n2.

End RunNotions.

(** The classes of the last package named [d]. *)
Definition latestClasses (packages : list Package) (d : string) : list Class :=
  match last (List.filter (named d) packages) with
  | Some p => Package_Classes p
  | None => []
  end.

(** ** White space and stars *)

Section Runes.

Variable s1 : ascii -> bool.
Variable s2 : ascii -> ascii -> bool.
Variable s3 : ascii -> ascii -> ascii -> bool.



End Runes.



(** * Properties *)

Example slice_mid : slice (exactly "func (w *Widget) f()") 8 15 = Done "*Widget".
Proof. reflexivity. Qed.
Example slice_oob : slice (exactly "abc") 2 4 = Panic "slice bounds out of range".
Proof. reflexivity. Qed.
Example slice_beyond_len :
  slice {| visible := "abc"; beyond := "xy" |} 2 4 = Done "cx" /\
  slice {| visible := "abc"; beyond := "xy" |} 2 6 = Panic "slice bounds out of range".
Proof. split; reflexivity. Qed.
Example TrimSuffix_once : TrimSuffix "a//" "/" = "a/".
Proof. reflexivity. Qed.
Example TrimRight_all : TrimRight "a//" "/"%char = "a".
Proof. reflexivity. Qed.
Example TrimSpace_ascii : TrimSpace "  Widget " = "Widget".
Proof. reflexivity. Qed.
Example Split_dir : Split "a/b/x.go" = ("a/b/", "x.go").
Proof. reflexivity. Qed.
Example Split_nodir : Split "x.go" = (EmptyString, "x.go").
Proof. reflexivity. Qed.
Example TrimSpace_nbsp :
  TrimSpace (String (ascii_of_nat 194) (String (ascii_of_nat 160) "W")
             +:+ String (ascii_of_nat 226) (String (ascii_of_nat 128)
                   (String (ascii_of_nat 168) EmptyString))) = "W".
Proof. reflexivity. Qed.
Example TrimSpace_not_a_rune :
  TrimSpace (String (ascii_of_nat 160) "W") = String (ascii_of_nat 160) "W".
Proof. reflexivity. Qed.


(** ** Byte strings *)

#[local] Arguments String.append !_ _ / : simpl nomatch.

Section StringFacts.

Implicit Types s p r : string.

Lemma append_empty_r s : s +:+ EmptyString = s.
Proof. induction s as [|c s IH]; simpl; [done | by rewrite IH]. Qed.

Lemma append_assoc s p r : (s +:+ p) +:+ r = s +:+ (p +:+ r).
Proof. induction s as [|c s IH]; simpl; [done | by rewrite IH]. Qed.

Lemma length_append s p : String.length (s +:+ p) = String.length s + String.length p.
Proof. induction s as [|c s IH]; simpl; [done | by rewrite IH]. Qed.

Lemma HasPrefix_append p r : HasPrefix (p +:+ r) p = true.
Proof. induction p as [|c p IH]; simpl; [done | by rewrite Ascii.eqb_refl]. Qed.

Lemma drop_append p r : drop (String.length p) (p +:+ r) = r.
Proof. induction p as [|c p IH]; simpl; done. Qed.

Lemma HasPrefix_split s p :
  HasPrefix s p = true -> s = p +:+ drop (String.length p) s.
Proof.
  revert s. induction p as [|c p IH]; intros s H; simpl in *; [by destruct s |].
  destruct s as [|d s]; [done |].
  destruct (Ascii.eqb d c) eqn:E; [| done].
  apply Ascii.eqb_eq in E as ->. f_equal. by apply IH.
Qed.

Lemma TrimPrefix_append p r : TrimPrefix (p +:+ r) p = r.
Proof. unfold TrimPrefix. by rewrite HasPrefix_append, drop_append. Qed.

Lemma substring_append p r : substring 0 (String.length p) (p +:+ r) = p.
Proof.
  induction p as [|c p IH]; simpl; [by destruct r | by rewrite IH].
Qed.

Lemma substring_skip p s n :
  substring (String.length p) n (p +:+ s) = substring 0 n s.
Proof. induction p as [|c p IH]; simpl; done. Qed.

Lemma rev_append s p : rev (s +:+ p) = rev p +:+ rev s.
Proof.
  induction s as [|c s IH]; simpl; [by rewrite append_empty_r |].
  by rewrite IH, append_assoc.
Qed.

Lemma rev_involutive s : rev (rev s) = s.
Proof.
  induction s as [|c s IH]; simpl; [done |].
  by rewrite rev_append, IH.
Qed.

Lemma length_rev s : String.length (rev s) = String.length s.
Proof.
  induction s as [|c s IH]; simpl; [done |].
  rewrite length_append, IH. simpl. lia.
Qed.

(** A string that ends with [c] is some string followed by [c]. *)
Lemma HasSuffix_char s c :
  HasSuffix s (String c EmptyString) = true ->
  exists r, s = r +:+ String c EmptyString.
Proof.
  unfold HasSuffix. simpl. intros H.
  destruct (rev s) as [|d t] eqn:E; [done |].
  destruct (Ascii.eqb d c) eqn:Ec; [| done].
  apply Ascii.eqb_eq in Ec as ->.
  exists (rev t). rewrite <-(rev_involutive s), E. done.
Qed.

(** The slice that holds [text] between [pre] and [post]. *)
Lemma slice_middle pre text post (sp : string) :
  slice {| visible := pre +:+ text +:+ post; beyond := sp |} (String.length pre)
        (String.length pre + String.length text) = Done text.
Proof.
  unfold slice, cap, len. simpl visible. simpl beyond. rewrite !length_append.
  rewrite decide_True by lia.
  replace (String.length pre + String.length text - String.length pre)
    with (String.length text) by lia.
  by rewrite !append_assoc, substring_skip, substring_append.
Qed.


End StringFacts.

(** ** The path normalizer *)

(** The prefix tested for a root is the root with one separator after it,
    unless the root already ends with a separator. *)
Lemma rootPrefix_cases (source : Source) :
  let sep := String PathSeparator EmptyString in
  rootPrefix source =
    if HasSuffix (Source_Path source) sep then Source_Path source
    else Source_Path source +:+ sep.
Proof.
  intros sep. unfold rootPrefix, TrimSuffix. fold sep.
  destruct (HasSuffix (Source_Path source) sep) eqn:E; [| done].
  apply HasSuffix_char in E as [r ->].
  rewrite length_append. simpl.
  replace (String.length r + 1 - 1) with (String.length r) by lia.
  by rewrite substring_append.
Qed.

Lemma stripKnownSources_none (sources : list Source) (fileName : string) :
  Forall (fun s => HasPrefix fileName (rootPrefix s) = false) sources ->
  stripKnownSources sources fileName = fileName.
Proof.
  induction 1 as [|s l Hs _ IH]; simpl; [done |].
  fold (rootPrefix s). by rewrite Hs.
Qed.

Lemma stripKnownSources_hit (before after : list Source) (s : Source)
    (fileName rest : string) :
  Forall (fun s => HasPrefix fileName (rootPrefix s) = false) before ->
  fileName = rootPrefix s +:+ rest ->
  stripKnownSources (before ++ s :: after) fileName = rest.
Proof.
  intros Hb ->. induction Hb as [|s0 l Hs _ IH]; simpl.
  - fold (rootPrefix s). by rewrite HasPrefix_append, TrimPrefix_append.
  - fold (rootPrefix s0). by rewrite Hs.
Qed.

(** C8, as the claim words it, fails: the root [a//], made to end in exactly
    one separator, is the prefix [a/] of the path [a/b], yet the path comes
    back whole instead of without that prefix. *)
Lemma stripKnownSources_two_separators :
  HasPrefix "a/b" (Spec.oneSeparator "a//") = true /\
  stripKnownSources [mkSource "a//"] "a/b" = "a/b" /\
  Spec.stripKnownSources_spec [mkSource "a//"] "a/b" = "b" /\
  stripKnownSources [mkSource "a//"] "a/b"
    <> TrimPrefix "a/b" (Spec.oneSeparator (Source_Path (mkSource "a//"))).
Proof. repeat split; try reflexivity. vm_compute. discriminate. Qed.

(** C8 (amended): [stripKnownSources] is a total function; the prefix it
    tests for a root is the root followed by one separator, a root that
    already ends with a separator being taken as it is; when the prefix of
    some root starts the path, the result is the path without the prefix of
    the first such root, and when none does, the path itself. *)
Theorem stripKnownSources_first_prefix (sources : list Source) (fileName : string) :
  let sep := String PathSeparator EmptyString in
  let misses s := HasPrefix fileName (rootPrefix s) = false in
  (forall s, rootPrefix s =
      if HasSuffix (Source_Path s) sep then Source_Path s else Source_Path s +:+ sep) /\
  (Forall misses sources -> stripKnownSources sources fileName = fileName) /\
  (forall before s after rest,
      sources = before ++ s :: after ->
      Forall misses before ->
      fileName = rootPrefix s +:+ rest ->
      stripKnownSources sources fileName = rest).
Proof.
  intros sep misses. split; [| split].
  - intros s. apply rootPrefix_cases.
  - apply stripKnownSources_none.
  - intros before s after rest -> Hb Hf. by apply stripKnownSources_hit.
Qed.

Lemma stripKnownSources_first_prefix_witness :
  stripKnownSources (map mkSource Example.SrcDirs) "/go/src/a/x.go" = "a/x.go" /\
  stripKnownSources (map mkSource Example.SrcDirs) "/tmp/x.go" = "/tmp/x.go".
Proof.
  split.
  - apply (proj2 (proj2 (stripKnownSources_first_prefix
             (map mkSource Example.SrcDirs) "/go/src/a/x.go"))
             [mkSource "/usr/lib/go/src"] (mkSource "/go/src") [] "a/x.go").
    + reflexivity.
    + repeat constructor.
    + reflexivity.
  - apply (proj1 (proj2 (stripKnownSources_first_prefix
             (map mkSource Example.SrcDirs) "/tmp/x.go"))).
    repeat constructor.
Defined.

(** ** Owner-type names *)

Section RuneFacts.

Variable s1 : ascii -> bool.
Variable s2 : ascii -> ascii -> bool.
Variable s3 : ascii -> ascii -> ascii -> bool.





End RuneFacts.






(** ** Profile parse errors *)

(** C3: when the profile text does not parse, [convert] panics and has
    written nothing to its output: no XML declaration, no DOCTYPE, no
    document. *)
Theorem convert_parse_error (loopVar : LoopVar)
    (findFile : string -> option string) (readFile : string -> option ByteSlice)
    (parseSource : string -> option File)
    (ParseProfiles : string -> option (list Profile))
    (SrcDirs : list string) (UnixNano : Z) (Encode : Coverage -> string * bool)
    (orders : nat -> RangeOrder) (input : string) :
  ParseProfiles input = None ->
  convert loopVar findFile readFile parseSource ParseProfiles SrcDirs UnixNano
          Encode orders input
  = (EmptyString, Panic "Can't parse profiles").
Proof. intros H. unfold convert. by rewrite H. Qed.

Lemma convert_parse_error_witness :
  Example.ParseProfiles "badline" = None /\
  convert PerLoop Example.findFile Example.readFile Example.parseSource
          Example.ParseProfiles Example.SrcDirs 1700000000123456789
          (fun _ => ("<coverage/>", false)) Example.inOrder "badline"
  = (EmptyString, Panic "Can't parse profiles").
Proof.
  split; [reflexivity |].
  apply convert_parse_error. reflexivity.
Defined.

(** ** Rates *)

Lemma filter_all_length {A} (f : A -> bool) (l : list A) :
  Forall (fun x => f x = true) l -> length (List.filter f l) = length l.
Proof.
  induction 1 as [|x l Hx _ IH]; simpl; [done |]. rewrite Hx. simpl. by rewrite IH.
Qed.

(** C9: a class without lines has line rate 0; a class with lines, all of
    them hit, has line rate 1; at every level the branch rate is the line
    rate. *)
Theorem rates_total_and_consistent :
  (forall c, Class_Lines c = [] -> Rates.Class_LineRate c = 0%Q) /\
  (forall c, Class_Lines c <> [] ->
             Forall (fun l => (0 < Line_Hits l)%Z) (Class_Lines c) ->
             (Rates.Class_LineRate c == 1)%Q) /\
  (forall m, Rates.Method_BranchRate m = Rates.Method_LineRate m) /\
  (forall c, Rates.Class_BranchRate c = Rates.Class_LineRate c) /\
  (forall p, Rates.Package_BranchRate p = Rates.Package_LineRate p) /\
  (forall cov, Rates.Coverage_BranchRate cov = Rates.Coverage_LineRate cov).
Proof.
  repeat split.
  - intros c H. unfold Rates.Class_LineRate. by rewrite H.
  - intros c Hne Hall. unfold Rates.Class_LineRate, Rates.lineRate.
    destruct (Class_Lines c) as [|l ls] eqn:E; [done |].
    rewrite filter_all_length.
    + unfold Qeq. simpl Qnum. simpl Qden.
      rewrite Z.mul_1_r, Z.mul_1_l.
      rewrite <-positive_nat_Z, Nat2Pos.id; [done | simpl; lia].
    + eapply Forall_impl; [exact Hall |].
      intros x Hx. unfold Rates.hit. by apply Z.ltb_lt.
Qed.

Lemma rates_total_and_consistent_witness :
  let none := {| Class_Name := "-"; Class_Filename := "foo.go";
                 Class_Methods := []; Class_Lines := [] |} in
  let full := {| Class_Name := "-"; Class_Filename := "foo.go"; Class_Methods := [];
                 Class_Lines := [mkLine 3 1; mkLine 4 2; mkLine 5 1] |} in
  Rates.Class_LineRate none = 0%Q /\ (Rates.Class_LineRate full == 1)%Q.
Proof.
  intros none full.
  destruct rates_total_and_consistent as (Hzero & Hone & _).
  split.
  - apply Hzero. reflexivity.
  - apply Hone.
    + simpl. discriminate.
    + simpl. repeat constructor.
Defined.

(** ** The visitor *)

Section Visitor.

Implicit Types (v : fileVisitor) (n : FuncDecl) (c : Class) (f : File).

Lemma foldl_snoc_lines (ls ms : list Line) :
  foldl (fun ls line => ls ++ [line]) ls ms = ls ++ ms.
Proof.
  revert ls. induction ms as [|m ms IH]; intros ls; simpl.
  - by rewrite app_nil_r.
  - rewrite IH. by rewrite <-app_assoc.
Qed.

Lemma merged_fields c (ms : list Method) :
  Class_Name (merged c ms) = Class_Name c /\
  Class_Filename (merged c ms) = Class_Filename c /\
  Class_Methods (merged c ms) = Class_Methods c ++ ms /\
  Class_Lines (merged c ms) = Class_Lines c ++ concat (map Method_Lines ms).
Proof.
  revert c. induction ms as [|m ms IH]; intros c; simpl.
  - by rewrite !app_nil_r.
  - destruct (IH (addMethod m c)) as (-> & -> & -> & ->). simpl.
    rewrite foldl_snoc_lines. by rewrite <-!app_assoc.
Qed.

Lemma recvName_data v v' n : v_data v' = v_data v -> recvName v' n = recvName v n.
Proof. intros H. unfold recvName. by rewrite H. Qed.

Lemma declsNamed_data v v' cn f :
  v_data v' = v_data v -> declsNamed v' cn f = declsNamed v cn f.
Proof.
  intros H. unfold declsNamed.
  induction (declsOf f) as [|n l IH]; [done |].
  rewrite !filter_cons, IH, (recvName_data v v' n H). done.
Qed.

(** One visit of a declaration whose owner-type name is [cn]. *)
Lemma Visit_FuncDecl v n cn :
  recvName v n = Done cn ->
  Visit v (FuncDeclNode n) =
    Done (setClasses v
            (<[cn := addMethod (method v n) (default (newClass v cn) (v_classes v !! cn))]>
               (v_classes v))).
Proof.
  intros H. unfold Visit, class. rewrite H. simpl.
  destruct (v_classes v !! cn) as [c|] eqn:E; simpl; do 2 f_equal.
  - apply map_eq. intros k. rewrite lookup_alter, lookup_insert.
    destruct (decide (cn = k)) as [<-|]; [by rewrite E | done].
  - apply map_eq. intros k. rewrite lookup_alter, !lookup_insert.
    destruct (decide (cn = k)) as [<-|]; [| done].
    by rewrite decide_True.
Qed.

Lemma Visit_returns v n v' :
  Visit v (FuncDeclNode n) = Done v' -> exists cn, recvName v n = Done cn.
Proof.
  unfold Visit, class. destruct (recvName v n) as [cn|msg]; [eauto | done].
Qed.

(** What a walk leaves under each key. *)
Lemma Walk_classes f : forall v v',
  Walk v f = Done v' ->
  v_name v' = v_name v /\ v_data v' = v_data v /\
  forall cn, v_classes v' !! cn =
    afterWalk v cn (v_classes v !! cn) (map (method v) (declsNamed v cn f)).
Proof.
  induction f as [|node f IH]; intros v v' H; simpl in H.
  - injection H as <-. repeat split. intros cn. unfold afterWalk. simpl.
    by destruct (v_classes v !! cn).
  - destruct (Visit v node) as [v1|msg] eqn:EV; [| done]. simpl in H.
    destruct (IH _ _ H) as (Hn & Hd & Hc). clear IH.
    destruct node as [n|].
    + destruct (Visit_returns _ _ _ EV) as [cn0 Hcn0].
      rewrite (Visit_FuncDecl _ _ _ Hcn0) in EV. injection EV as <-.
      simpl in *. repeat split; [done.. |].
      intros cn. rewrite Hc, (declsNamed_data v) by done.
      unfold declsNamed. simpl. rewrite filter_cons.
      destruct (decide (recvName v n = Done cn)) as [Heq|Hne].
      * assert (cn0 = cn) as -> by congruence.
        rewrite lookup_insert_eq. unfold afterWalk. simpl.
        by destruct (v_classes v !! cn).
      * rewrite lookup_insert_ne by congruence. done.
    + simpl in EV. injection EV as <-. repeat split; [done.. |].
      intros cn. by rewrite Hc.
Qed.

Lemma Walk_no_decls f v : declsOf f = [] -> Walk v f = Done v.
Proof.
  induction f as [|[n|] f IH]; simpl; [done.. |].
  intros H. by apply IH.
Qed.

End Visitor.

(** ** One class per owner-type name *)

Section Classes.

Implicit Types (v : fileVisitor) (n : FuncDecl) (c : Class) (f : File).

Lemma merged_newClass v cn (ns : list FuncDecl) :
  merged (newClass v cn) (map (method v) ns) = classOf v cn ns.
Proof.
  destruct (merged_fields (newClass v cn) (map (method v) ns)) as (H1 & H2 & H3 & H4).
  destruct (merged _ _) as [a b ms ls]. simpl in *. subst.
  unfold classOf. f_equal. by rewrite map_map.
Qed.

Lemma Walk_from_empty f v v' :
  v_classes v = ∅ ->
  Walk v f = Done v' ->
  forall cn, v_classes v' !! cn =
    match declsNamed v cn f with
    | [] => None
    | ns => Some (classOf v cn ns)
    end.
Proof.
  intros Hempty H cn.
  destruct (Walk_classes _ _ _ H) as (_ & _ & Hc).
  rewrite Hc, Hempty, lookup_empty. unfold afterWalk.
  destruct (declsNamed v cn f) as [|n ns] eqn:E; [done |].
  change (default (newClass v cn) None) with (newClass v cn).
  by rewrite merged_newClass.
Qed.

(** When every class is stored under its own name, the names of the
    contributed classes are the keys of the map, in some order. *)
Lemma contribution_names (order : RangeOrder) v :
  fair order ->
  (forall k c, v_classes v !! k = Some c -> Class_Name c = k) ->
  Class_Name <$> contribution order v ≡ₚ (map_to_list (v_classes v)).*1.
Proof.
  intros Hfair Hkey. unfold contribution.
  rewrite (Hfair (map_to_list (v_classes v))).
  assert (forall l : list (string * Class),
            Forall (fun kc => Class_Name kc.2 = kc.1) l ->
            Class_Name <$> l.*2 = l.*1) as Hl.
  { induction 1 as [|[k c] l Hk _ IH]; csimpl in *; [done | by rewrite Hk, IH]. }
  rewrite Hl; [done |].
  apply Forall_forall. intros [k c] Hin. simpl.
  apply Hkey. by apply elem_of_map_to_list.
Qed.

Lemma declsNamed_nonempty v cn f :
  declsNamed v cn f <> [] <->
  exists n, n ∈ declsOf f /\ recvName v n = Done cn.
Proof.
  unfold declsNamed. split.
  - destruct (filter _ _) as [|n l] eqn:E; [done |]. intros _.
    assert (n ∈ filter (fun n => recvName v n = Done cn) (declsOf f)) as Hin
      by (rewrite E; left).
    apply list_elem_of_filter in Hin as [? ?]. eauto.
  - intros (n & Hin & Hn) E.
    assert (n ∈ filter (fun n => recvName v n = Done cn) (declsOf f)) as Hf
      by (by apply list_elem_of_filter).
    rewrite E in Hf. by apply elem_of_nil in Hf.
Qed.

End Classes.

(** C7: a walk over a file leaves, for every owner-type name, one class
    that holds the methods of all the declarations with that name, in
    source order, and their lines; the classes the file contributes bear
    pairwise different names, the owner-type names of its declarations. *)
Theorem Walk_one_class_per_owner (name : string) (data : ByteSlice) (f : File)
    (v' : fileVisitor) (order : RangeOrder) :
  let v := {| v_name := name; v_data := data; v_classes := ∅ |} in
  Walk v f = Done v' ->
  fair order ->
  (forall cn, v_classes v' !! cn =
     match declsNamed v cn f with
     | [] => None
     | ns => Some {| Class_Name := cn; Class_Filename := name;
                     Class_Methods := map (method v) ns;
                     Class_Lines := concat (map (fun n => Method_Lines (method v n)) ns) |}
     end) /\
  NoDup (Class_Name <$> contribution order v') /\
  (forall cn, cn ∈ (Class_Name <$> contribution order v') <->
     exists n, n ∈ declsOf f /\ recvName v n = Done cn).
Proof.
  intros v HW Hfair.
  pose proof (Walk_from_empty f v v' eq_refl HW) as Hc.
  assert (forall k c, v_classes v' !! k = Some c -> Class_Name c = k) as Hkey.
  { intros k c Hk. rewrite Hc in Hk.
    destruct (declsNamed v k f); [done |]. by injection Hk as <-. }
  pose proof (contribution_names order v' Hfair Hkey) as Hnames.
  split; [exact Hc |]. split.
  - rewrite Hnames. apply NoDup_fst_map_to_list.
  - intros cn. rewrite Hnames, <-declsNamed_nonempty.
    rewrite list_elem_of_fmap. split.
    + intros ([k c] & -> & Hin). apply elem_of_map_to_list in Hin. simpl.
      rewrite Hc in Hin. by destruct (declsNamed v k f).
    + intros Hne. specialize (Hc cn).
      destruct (declsNamed v cn f) as [|n ns] eqn:E; [done |].
      exists (cn, classOf v cn (n :: ns)). split; [done |].
      by apply elem_of_map_to_list.
Qed.

Lemma Walk_one_class_per_owner_witness :
  let f := [FuncDeclNode Example.x_f; OtherNode; FuncDeclNode Example.x_g;
            FuncDeclNode Example.x_f; FuncDeclNode Example.x_g] in
  exists v', Walk {| v_name := "a/x.go"; v_data := exactly Example.x_go; v_classes := ∅ |} f = Done v' /\
    v_classes v' !! "Widget" =
      Some {| Class_Name := "Widget"; Class_Filename := "a/x.go";
              Class_Methods := [mkMethod "g" []; mkMethod "g" []]; Class_Lines := [] |} /\
    NoDup (Class_Name <$> contribution (fun l => l) v').
Proof.
  intros f.
  destruct (Walk {| v_name := "a/x.go"; v_data := exactly Example.x_go; v_classes := ∅ |} f)
    as [v'|msg] eqn:E; [| vm_compute in E; discriminate].
  exists v'. split; [reflexivity |].
  destruct (Walk_one_class_per_owner "a/x.go" (exactly Example.x_go) f v' (fun l => l) E)
    as (Hc & Hnd & _); [by intros l |].
  split; [| exact Hnd].
  rewrite Hc. reflexivity.
Defined.


(** ** The accumulator *)

Section Accumulator.

Variable findFile : string -> option string.
Variable readFile : string -> option ByteSlice.
Variable parseSource : string -> option File.

#[local] Abbreviation parse := (ParseFile readFile parseSource).
#[local] Abbreviation file lv := (parseFile lv findFile readFile parseSource).

Implicit Types (lv : LoopVar) (cov : Coverage) (pkg : Package) (order : RangeOrder).

Lemma rangeFind_nil lv (x : string) : rangeFind lv [] x = None.
Proof. unfold rangeFind. by destruct lv. Qed.

(** The loop over one more package. *)
Lemma rangeFind_snoc lv (l : list Package) pkg (x : string) :
  rangeFind lv (l ++ [pkg]) x =
    if String.eqb (Package_Name pkg) x then Some pkg
    else match lv with
         | PerIteration => rangeFind lv l x
         | PerLoop => match rangeFind lv l x with Some _ => Some pkg | None => None end
         end.
Proof.
  unfold rangeFind. destruct lv.
  - rewrite foldl_app. simpl.
    assert (forall acc, (acc = (false, None) \/ exists q, acc.2 = Some q) ->
              let r := foldl (fun '(found, _) p =>
                         (found || String.eqb (Package_Name p) x, Some p)) acc l in
              r = (false, None) \/ exists q, r.2 = Some q) as Hinv.
    { induction l as [|p l IH]; intros acc Hacc; simpl; [done |].
      apply IH. destruct acc as [found cell]. right. by exists p. }
    specialize (Hinv (false, None) (or_introl eq_refl)). simpl in Hinv.
    destruct (foldl _ (false, None) l) as [found cell].
    destruct (String.eqb (Package_Name pkg) x).
    + by rewrite orb_true_r.
    + rewrite orb_false_r. destruct found; [| done].
      destruct Hinv as [? | [q Hq]]; [done |]. simpl in Hq. by rewrite Hq.
  - rewrite foldl_app. simpl. by destruct (String.eqb (Package_Name pkg) x).
Qed.

Lemma rangeFind_elem lv (l : list Package) (x : string) pkg :
  rangeFind lv l x = Some pkg -> pkg ∈ l.
Proof.
  revert pkg. induction l as [|q l IH] using rev_ind; intros pkg.
  - by rewrite rangeFind_nil.
  - rewrite rangeFind_snoc.
    destruct (String.eqb (Package_Name q) x).
    + intros [= <-]. apply elem_of_app. right. left.
    + destruct lv.
      * destruct (rangeFind PerLoop l x); [| done].
        intros [= <-]. apply elem_of_app. right. left.
      * intros H. apply elem_of_app. left. by apply IH.
Qed.

Lemma rangeFind_absent lv (l : list Package) (x : string) :
  Forall (fun q => Package_Name q <> x) l -> rangeFind lv l x = None.
Proof.
  induction l as [|q l IH] using rev_ind; intros H.
  - apply rangeFind_nil.
  - apply Forall_app in H as [Hl Hq]. rewrite Forall_singleton in Hq.
    rewrite rangeFind_snoc, (IH Hl).
    destruct (String.eqb_spec (Package_Name q) x) as [Heq|_]; [by destruct Hq |].
    by destruct lv.
Qed.

Lemma foldl_addClasses pkg (l : list (string * Class)) :
  foldl (fun pkg c =>
           {| Package_Name := Package_Name pkg;
              Package_Classes := Package_Classes pkg ++ [c.2] |}) pkg l
  = addClasses pkg l.*2.
Proof.
  revert pkg. induction l as [|c l IH]; intros pkg; simpl.
  - unfold addClasses. rewrite app_nil_r. by destruct pkg.
  - rewrite IH. unfold addClasses. simpl. by rewrite <-app_assoc.
Qed.

(** [parseFile] on a file that is found and parses: a walk, then one more
    package. *)
Lemma parseFile_found lv order cov (fileName path : string) (parsed : File) :
  findFile fileName = Some path ->
  parse path = Some parsed ->
  exists data, readFile path = Some data /\
    file lv order cov fileName =
      (v ← Walk {| v_name := fileName; v_data := data; v_classes := ∅ |} parsed;
       Done (None, addPackage cov
                     (addClasses (basePackage lv cov fileName)
                                 (contribution order v)))).
Proof.
  intros Hf Hp. unfold parseFile. rewrite Hf, Hp.
  unfold ParseFile in Hp.
  destruct (readFile path) as [data|] eqn:Hr; [| done].
  exists data. split; [done |].
  destruct (Walk _ parsed) as [v|msg]; [| done]. simpl.
  rewrite foldl_addClasses. unfold basePackage, pkgPathOf.
  by destruct (rangeFind lv _ _).
Qed.

(** [parseFile] on a file that is not found or does not parse. *)
Lemma parseFile_unusable lv order cov (fileName : string) :
  findFile fileName = None \/
    (exists path, findFile fileName = Some path /\ parse path = None) ->
  exists e, file lv order cov fileName = Done (Some e, cov).
Proof.
  unfold parseFile. intros [Hf | (path & Hf & Hp)]; rewrite Hf.
  - by exists ErrNotFound.
  - rewrite Hp. by exists ErrSyntax.
Qed.

End Accumulator.

(** ** Runs over several profile entries *)

Section Runs.

Variable findFile : string -> option string.
Variable readFile : string -> option ByteSlice.
Variable parseSource : string -> option File.

#[local] Abbreviation parseOne lv := (parseFile lv findFile readFile parseSource).
#[local] Abbreviation parseAll lv := (parseEach lv findFile readFile parseSource).

Implicit Types (lv : LoopVar) (cov : Coverage) (orders : nat -> RangeOrder).

(** Only the orders from the current index on matter. *)
Lemma parseEach_shift lv (o1 o2 : nat -> RangeOrder) (l : list Profile) :
  forall a b cov,
  (forall j, o1 (a + j) = o2 (b + j)) ->
  parseAll lv o1 a cov l = parseAll lv o2 b cov l.
Proof.
  induction l as [|p l IH]; intros a b cov H; simpl; [done |].
  pose proof (H 0) as H0. rewrite !Nat.add_0_r in H0. rewrite H0.
  destruct (parseOne lv (o2 b) cov (FileName p)) as [[e c]|msg]; simpl; [| done].
  apply IH. intros j. specialize (H (S j)).
  by rewrite !Nat.add_succ_r in H.
Qed.

Lemma skipOrder_lt (k : nat) orders (i : nat) : i < k -> skipOrder k orders i = orders i.
Proof. intros H. unfold skipOrder. by rewrite decide_True. Qed.

Lemma skipOrder_ge (k : nat) orders (i : nat) : k <= i -> skipOrder k orders i = orders (S i).
Proof. intros H. unfold skipOrder. rewrite decide_False; [done | lia]. Qed.

(** An entry on which [parseFile] returns an error leaves the loop as it
    would be without the entry. *)
Lemma parseEach_skip lv orders (bad : Profile) (before after : list Profile) :
  (forall order c, exists e, parseOne lv order c (FileName bad) = Done (Some e, c)) ->
  forall i cov,
  parseAll lv orders i cov (before ++ bad :: after)
  = parseAll lv (skipOrder (i + length before) orders) i cov (before ++ after).
Proof.
  intros Hbad. induction before as [|p before IH]; intros i cov; simpl.
  - destruct (Hbad (orders i) cov) as [e ->]. simpl.
    apply parseEach_shift. intros j.
    rewrite skipOrder_ge by lia. f_equal; lia.
  - rewrite skipOrder_lt by lia.
    destruct (parseOne lv (orders i) cov (FileName p)) as [[e c]|msg]; simpl; [| done].
    rewrite IH. by replace (S i + length before) with (i + S (length before)) by lia.
Qed.

End Runs.

(** ** One package per processed file *)

(** C10, as the claim words it, fails twice in the example tree.  [a/y.go]
    is found, parses and has no function declaration, yet the package
    appended for it, after [a/x.go], holds two classes.  [a/z.go] is found
    and parses, yet [parseFile] panics on it and appends nothing. *)
Lemma parseFile_empty_file_not_empty_package :
  let vx := {| v_name := "a/x.go"; v_data := exactly Example.x_go; v_classes := ∅ |} in
  let pkg := {| Package_Name := "a";
                Package_Classes := [classOf vx "Widget" [Example.x_g];
                                    classOf vx "-" [Example.x_f]] |} in
  let cov1 := addPackage Example.cov0 pkg in
  Example.run PerLoop Example.inOrder ["a/x.go"] = Done cov1 /\
  Example.findFile "a/y.go" = Some "/go/src/a/y.go" /\
  (exists parsed,
      ParseFile Example.readFile Example.parseSource "/go/src/a/y.go" = Some parsed /\
      declsOf parsed = []) /\
  (forall lv,
      parseFile lv Example.findFile Example.readFile Example.parseSource
                (fun l => l) cov1 "a/y.go" = Done (None, addPackage cov1 pkg)) /\
  Example.findFile "a/z.go" = Some "/go/src/a/z.go" /\
  ParseFile Example.readFile Example.parseSource "/go/src/a/z.go"
    = Some [OtherNode; OtherNode; FuncDeclNode Example.z_h; OtherNode; OtherNode] /\
  (forall lv,
      parseFile lv Example.findFile Example.readFile Example.parseSource
                (fun l => l) Example.cov0 "a/z.go" = Panic "index out of range").
Proof.
  intros vx pkg cov1.
  split; [by vm_compute |]. split; [by vm_compute |]. split.
  { exists [OtherNode; OtherNode; OtherNode; OtherNode]. by vm_compute. }
  split.
  { intros lv. by destruct lv; vm_compute. }
  split; [by vm_compute |]. split; [by vm_compute |].
  intros lv. by destruct lv; vm_compute.
Qed.

(** C10 (amended): for a file that is found and parses, a call of
    [parseFile] that returns has appended exactly one package and returns
    no error; when the file has no function declaration the call does
    return, and when moreover no package of the accumulator bears the name
    of the file's directory, the appended package has that name and no
    class. *)
Theorem parseFile_appends_one_package (loopVar : LoopVar)
    (findFile : string -> option string) (readFile : string -> option ByteSlice)
    (parseSource : string -> option File)
    (order : RangeOrder) (cov : Coverage)
    (fileName path : string) (parsed : File) :
  fair order ->
  findFile fileName = Some path ->
  ParseFile readFile parseSource path = Some parsed ->
  let result := parseFile loopVar findFile readFile parseSource order cov fileName in
  (returns result ->
     exists pkg, result = Done (None, addPackage cov pkg) /\
                 Coverage_Packages (addPackage cov pkg) = Coverage_Packages cov ++ [pkg]) /\
  (declsOf parsed = [] -> returns result) /\
  (declsOf parsed = [] ->
   Forall (fun q => Package_Name q <> pkgPathOf fileName) (Coverage_Packages cov) ->
   result = Done (None, addPackage cov
                          {| Package_Name := pkgPathOf fileName; Package_Classes := [] |})).
Proof.
  intros Hfair Hf Hp result.
  destruct (parseFile_found findFile readFile parseSource loopVar order cov
              fileName path parsed Hf Hp) as (data & Hr & Heq).
  fold result in Heq.
  assert (declsOf parsed = [] ->
          result = Done (None, addPackage cov
                     (addClasses (basePackage loopVar cov fileName) []))) as Hnone.
  { intros Hd. rewrite Heq, (Walk_no_decls parsed _ Hd). simpl.
    unfold contribution. simpl. rewrite map_to_list_empty.
    pose proof (Hfair []) as Hnil. apply Permutation_nil_r in Hnil. by rewrite Hnil. }
  split; [| split].
  - intros [r Hres]. rewrite Heq in Hres |- *.
    destruct (Walk _ parsed) as [v|msg]; [| done]. simpl. eauto.
  - intros Hd. rewrite (Hnone Hd). by eexists.
  - intros Hd Habs. rewrite (Hnone Hd). do 3 f_equal.
    unfold basePackage. rewrite (rangeFind_absent _ _ _ Habs).
    unfold addClasses. simpl. done.
Qed.

Lemma parseFile_appends_one_package_witness :
  parseFile PerLoop Example.findFile Example.readFile Example.parseSource
            (fun l => l) Example.cov0 "a/y.go"
  = Done (None, addPackage Example.cov0 (mkPackage "a" [])).
Proof.
  apply (proj2 (proj2 (parseFile_appends_one_package PerLoop Example.findFile
           Example.readFile Example.parseSource (fun l => l) Example.cov0
           "a/y.go" "/go/src/a/y.go" _ (fun l => reflexivity l) eq_refl eq_refl))).
  - reflexivity.
  - constructor.
Defined.


(** ** Lines *)

Section Lines.

Variable findFile : string -> option string.
Variable readFile : string -> option ByteSlice.
Variable parseSource : string -> option File.

Implicit Types (lv : LoopVar) (cov : Coverage) (orders : nat -> RangeOrder).

Lemma classOf_noLines (v : fileVisitor) (cn : string) (ns : list FuncDecl) :
  Class_Lines (classOf v cn ns) = [] /\
  Forall (fun m => Method_Lines m = []) (Class_Methods (classOf v cn ns)).
Proof.
  unfold classOf. simpl. split.
  - induction ns as [|n ns IH]; simpl; done.
  - apply Forall_forall. intros m Hm.
    apply list_elem_of_fmap in Hm as (n & -> & _). done.
Qed.

(** Every class a file contributes is the class of one owner-type name. *)
Lemma contribution_classOf (order : RangeOrder) (v v' : fileVisitor) (f : File) (c : Class) :
  fair order ->
  v_classes v = ∅ ->
  Walk v f = Done v' ->
  c ∈ contribution order v' ->
  exists cn ns, c = classOf v cn ns.
Proof.
  intros Hfair Hempty HW Hin. unfold contribution in Hin.
  rewrite (Hfair _) in Hin.
  apply list_elem_of_fmap in Hin as ([k c'] & -> & Hin).
  apply elem_of_map_to_list in Hin.
  rewrite (Walk_from_empty f v v' Hempty HW) in Hin.
  destruct (declsNamed v k f) as [|n ns]; [done |].
  injection Hin as <-. eauto.
Qed.

Lemma basePackage_noLines lv cov (fileName : string) :
  Forall noLines (Coverage_Packages cov) ->
  noLines (basePackage lv cov fileName).
Proof.
  intros H. unfold basePackage.
  destruct (rangeFind lv _ _) as [pkg|] eqn:E; simpl.
  - apply rangeFind_elem in E. by eapply Forall_forall in H.
  - by apply Forall_nil.
Qed.

Lemma parseFile_noLines lv (order : RangeOrder) cov (fileName : string) e cov' :
  fair order ->
  Forall noLines (Coverage_Packages cov) ->
  parseFile lv findFile readFile parseSource order cov fileName = Done (e, cov') ->
  Forall noLines (Coverage_Packages cov').
Proof.
  intros Hfair Hcov Hres.
  destruct (findFile fileName) as [path|] eqn:Hf.
  - destruct (ParseFile readFile parseSource path) as [parsed|] eqn:Hp.
    + destruct (parseFile_found findFile readFile parseSource lv order cov
                  fileName path parsed Hf Hp) as (data & _ & Heq).
      rewrite Heq in Hres.
      destruct (Walk _ parsed) as [v'|msg] eqn:HW; [| done].
      simpl in Hres. injection Hres as _ <-. simpl.
      apply Forall_app. split; [done |]. apply Forall_singleton.
      unfold noLines, addClasses. simpl. apply Forall_app. split.
      * by apply basePackage_noLines.
      * apply Forall_forall. intros c Hc.
        destruct (contribution_classOf order
                    {| v_name := fileName; v_data := data; v_classes := ∅ |}
                    v' parsed c Hfair eq_refl HW Hc)
          as (cn & ns & ->).
        apply classOf_noLines.
    + destruct (parseFile_unusable findFile readFile parseSource lv order cov fileName)
        as [e' He]; [right; eauto |].
      rewrite He in Hres. by injection Hres as _ <-.
  - destruct (parseFile_unusable findFile readFile parseSource lv order cov fileName)
      as [e' He]; [by left |].
    rewrite He in Hres. by injection Hres as _ <-.
Qed.

Lemma parseEach_noLines lv orders (l : list Profile) :
  (forall i, fair (orders i)) ->
  forall i cov cov',
  Forall noLines (Coverage_Packages cov) ->
  parseEach lv findFile readFile parseSource orders i cov l = Done cov' ->
  Forall noLines (Coverage_Packages cov').
Proof.
  intros Hfair. induction l as [|p l IH]; intros i cov cov' Hcov H; simpl in H.
  - by injection H as <-.
  - destruct (parseFile lv findFile readFile parseSource (orders i) cov (FileName p))
      as [[e c]|msg] eqn:E; [| done].
    simpl in H. eapply IH; [| exact H].
    eapply parseFile_noLines; [apply Hfair | exact Hcov | exact E].
Qed.

End Lines.

(** C2, as the claim words it, fails on the specification's own scenario:
    the block [foo.go:3.1,5.2 2 1] overlaps the function of lines 3 to 5,
    whose method in the report has no line, hence hits that sum to 0, not
    to the block's count 1. *)
Lemma foo_method_hits_differ_from_blocks :
  let m := method {| v_name := "foo.go"; v_data := exactly Example.foo_go; v_classes := ∅ |}
                  Example.foo_f in
  let c := {| Class_Name := "-"; Class_Filename := "foo.go";
              Class_Methods := [m]; Class_Lines := [] |} in
  Example.ParseProfiles Example.foo_profile
    = Some [mkProfile "foo.go" [Example.block_3_5]] /\
  parseProfiles PerLoop Example.findFile Example.readFile Example.parseSource
    Example.inOrder Example.cov0 [mkProfile "foo.go" [Example.block_3_5]]
    = Done (addPackage Example.cov0
              {| Package_Name := EmptyString; Package_Classes := [c] |}) /\
  Spec.hitsSum (Method_Lines m) = 0%Z /\
  Spec.blockHits [Example.block_3_5] Example.foo_f = 1%Z /\
  Spec.hitsSum (Method_Lines m) <> Spec.blockHits [Example.block_3_5] Example.foo_f.
Proof. intros m c. repeat split; by vm_compute. Qed.

(** C2 (amended): in the report of a run, every method has an empty list
    of lines, so that the hits of its lines sum to 0 whatever the blocks of
    the profile are; the lines of a class are the lines of its methods, one
    after the other. *)
Theorem report_methods_have_no_lines (loopVar : LoopVar)
    (findFile : string -> option string) (readFile : string -> option ByteSlice)
    (parseSource : string -> option File)
    (orders : nat -> RangeOrder) (cov cov' : Coverage) (profiles : list Profile) :
  (forall i, fair (orders i)) ->
  parseProfiles loopVar findFile readFile parseSource orders cov profiles = Done cov' ->
  forall p c, p ∈ Coverage_Packages cov' -> c ∈ Package_Classes p ->
    Class_Lines c = concat (map Method_Lines (Class_Methods c)) /\
    forall m, m ∈ Class_Methods c ->
      Method_Lines m = [] /\ Spec.hitsSum (Method_Lines m) = 0%Z.
Proof.
  intros Hfair Hrun p c Hp Hc. unfold parseProfiles in Hrun.
  apply parseEach_noLines in Hrun; [| done | by apply Forall_nil].
  eapply Forall_forall in Hrun; [| exact Hp].
  eapply Forall_forall in Hrun; [| exact Hc].
  destruct Hrun as [Hlines Hmethods]. split.
  - rewrite Hlines. clear Hlines Hc.
    induction Hmethods as [|m ms Hm _ IH]; simpl; [done |]. by rewrite Hm.
  - intros m Hm. eapply Forall_forall in Hmethods; [| exact Hm].
    by rewrite Hmethods.
Qed.

Lemma report_methods_have_no_lines_witness :
  let m := {| Method_Name := "f"; Method_Lines := [] |} in
  let c := {| Class_Name := "-"; Class_Filename := "foo.go";
              Class_Methods := [m]; Class_Lines := [] |} in
  Class_Lines c = concat (map Method_Lines (Class_Methods c)) /\
  Spec.hitsSum (Method_Lines m) = 0%Z.
Proof.
  intros m c.
  destruct (report_methods_have_no_lines PerLoop Example.findFile Example.readFile
              Example.parseSource Example.inOrder Example.cov0
              (addPackage Example.cov0
                 {| Package_Name := EmptyString; Package_Classes := [c] |})
              [mkProfile "foo.go" [Example.block_3_5]]
              (fun i l => reflexivity l) eq_refl
              {| Package_Name := EmptyString; Package_Classes := [c] |} c)
    as [Hlines Hm].
  - simpl. left.
  - simpl. left.
  - split; [exact Hlines |]. apply (Hm m). simpl. left.
Defined.

(** ** Two runs on the same input *)

Section TwoRuns.

Variable findFile : string -> option string.
Variable readFile : string -> option ByteSlice.
Variable parseSource : string -> option File.

Implicit Types (lv : LoopVar) (cov : Coverage) (orders : nat -> RangeOrder).

Lemma samePackage_refl (p : Package) : samePackage p p.
Proof. by split. Qed.

Lemma sameReport_refl cov : sameReport cov cov.
Proof.
  repeat split. induction (Coverage_Packages cov); constructor; [apply samePackage_refl | done].
Qed.

(** The lookup selects packages at the same position of two lists that
    agree on the names. *)
Lemma rangeFind_same lv (l1 : list Package) (x : string) :
  forall l2, Forall2 samePackage l1 l2 ->
  option_Forall2 samePackage (rangeFind lv l1 x) (rangeFind lv l2 x).
Proof.
  induction l1 as [|q l1 IH] using rev_ind; intros l2 H.
  - apply Forall2_nil_inv_l in H as ->. rewrite !rangeFind_nil. constructor.
  - apply Forall2_app_inv_l in H as (k1 & k2 & Hk1 & Hk2 & ->).
    apply Forall2_cons_inv_l in Hk2 as (q' & k & Hq & Hnil & ->).
    apply Forall2_nil_inv_l in Hnil as ->.
    rewrite !rangeFind_snoc. destruct Hq as [Hname Hcls]. rewrite <-Hname.
    destruct (String.eqb (Package_Name q) x).
    + by constructor.
    + specialize (IH k1 Hk1). destruct lv; [| done].
      destruct IH; by constructor.
Qed.

Lemma basePackage_same lv cov1 cov2 (fileName : string) :
  sameReport cov1 cov2 ->
  samePackage (basePackage lv cov1 fileName) (basePackage lv cov2 fileName).
Proof.
  intros (_ & _ & H). unfold basePackage.
  destruct (rangeFind_same lv _ (pkgPathOf fileName) _ H); simpl; [done |].
  apply samePackage_refl.
Qed.

Lemma contribution_fair (order : RangeOrder) (v : fileVisitor) :
  fair order -> contribution order v ≡ₚ (map_to_list (v_classes v)).*2.
Proof. intros H. unfold contribution. by rewrite (H _). Qed.

Lemma parseFile_same lv (o1 o2 : RangeOrder) cov1 cov2 (fileName : string) :
  fair o1 -> fair o2 -> sameReport cov1 cov2 ->
  sameOutcome (parseFile lv findFile readFile parseSource o1 cov1 fileName)
              (parseFile lv findFile readFile parseSource o2 cov2 fileName).
Proof.
  intros H1 H2 Hcov.
  destruct (findFile fileName) as [path|] eqn:Hf.
  - destruct (ParseFile readFile parseSource path) as [parsed|] eqn:Hp.
    + destruct (parseFile_found findFile readFile parseSource lv o1 cov1
                  fileName path parsed Hf Hp) as (data & Hr & ->).
      destruct (parseFile_found findFile readFile parseSource lv o2 cov2
                  fileName path parsed Hf Hp) as (data' & Hr' & ->).
      assert (data' = data) as -> by congruence.
      destruct (Walk _ parsed) as [v|msg]; simpl; [| done].
      split; [done |]. destruct Hcov as (Hs & Ht & Hpk).
      repeat split; [done.. |]. simpl.
      apply Forall2_app; [done |]. constructor; [| constructor].
      destruct (basePackage_same lv cov1 cov2 fileName (conj Hs (conj Ht Hpk)))
        as [Hn Hc].
      split; simpl; [done |].
      by rewrite Hc, !contribution_fair.
    + unfold parseFile. rewrite Hf, Hp. by split.
  - unfold parseFile. rewrite Hf. by split.
Qed.

Lemma parseEach_same lv (o1 o2 : nat -> RangeOrder) (l : list Profile) :
  (forall i, fair (o1 i)) -> (forall i, fair (o2 i)) ->
  forall i cov1 cov2, sameReport cov1 cov2 ->
  sameRun (parseEach lv findFile readFile parseSource o1 i cov1 l)
          (parseEach lv findFile readFile parseSource o2 i cov2 l).
Proof.
  intros H1 H2. induction l as [|p l IH]; intros i cov1 cov2 Hcov; simpl; [done |].
  pose proof (parseFile_same lv (o1 i) (o2 i) cov1 cov2 (FileName p)
                (H1 i) (H2 i) Hcov) as Hfile.
  destruct (parseFile _ _ _ _ (o1 i) cov1 _) as [[e1 c1]|m1];
    destruct (parseFile _ _ _ _ (o2 i) cov2 _) as [[e2 c2]|m2]; simpl in *; try done.
  apply IH. by destruct Hfile.
Qed.

(** Orders that agree give the same run. *)
Lemma parseEach_ext lv (o1 o2 : nat -> RangeOrder) (l : list Profile) :
  (forall i entries, o1 i entries = o2 i entries) ->
  forall i cov,
  parseEach lv findFile readFile parseSource o1 i cov l
  = parseEach lv findFile readFile parseSource o2 i cov l.
Proof.
  intros H. induction l as [|p l IH]; intros i cov; simpl; [done |].
  assert (parseFile lv findFile readFile parseSource (o1 i) cov (FileName p)
          = parseFile lv findFile readFile parseSource (o2 i) cov (FileName p)) as ->.
  { unfold parseFile.
    destruct (findFile (FileName p)) as [path|]; [| done].
    destruct (ParseFile readFile parseSource path) as [parsed|]; [| done].
    destruct (readFile path) as [data|]; [| done].
    destruct (Walk _ parsed) as [v|msg]; simpl; [| done].
    by rewrite H. }
  destruct (parseFile _ _ _ _ (o2 i) cov _) as [[e c]|m]; simpl; [apply IH | done].
Qed.

End TwoRuns.

Lemma append_inj_l (p a b : string) : p +:+ a = p +:+ b -> a = b.
Proof. induction p as [|c p IH]; simpl; [done |]. intros [= H]. by apply IH. Qed.

Lemma append_inj_r (s a b : string) : a +:+ s = b +:+ s -> a = b.
Proof.
  intros H. apply (f_equal rev) in H. rewrite !rev_append in H.
  apply append_inj_l in H. apply (f_equal rev) in H.
  by rewrite !rev_involutive in H.
Qed.

(** C5, as the claim words it, fails: [a/x.go] has a free function and a
    method, hence two classes; enumerated in one order and in the reverse
    order, the class map gives two reports that differ in the order of the
    classes, and every encoder that tells reports apart writes different
    bytes for them. *)
Lemma convert_output_depends_on_map_order :
  (forall i, fair (Example.inOrder i)) /\
  (forall i, fair (Example.reversed i)) /\
  Example.ParseProfiles Example.x_profile
    = Some [mkProfile "a/x.go" [mkBlock 2 10 2 12 0 1]] /\
  Example.run PerLoop Example.inOrder ["a/x.go"]
    <> Example.run PerLoop Example.reversed ["a/x.go"] /\
  (forall lv Encode,
      (forall c1 c2, (Encode c1).1 = (Encode c2).1 -> c1 = c2) ->
      convert lv Example.findFile Example.readFile Example.parseSource
              Example.ParseProfiles Example.SrcDirs 1700000000123456789 Encode
              Example.inOrder Example.x_profile
      <> convert lv Example.findFile Example.readFile Example.parseSource
                 Example.ParseProfiles Example.SrcDirs 1700000000123456789 Encode
                 Example.reversed Example.x_profile).
Proof.
  split; [by intros i l |].
  split; [intros i l; apply reverse_Permutation |].
  split; [reflexivity |].
  split; [by vm_compute |].
  intros lv Encode Hinj Heq. unfold convert in Heq.
  change (Example.ParseProfiles Example.x_profile)
    with (Some [mkProfile "a/x.go" [mkBlock 2 10 2 12 0 1]]) in Heq.
  cbv beta iota in Heq.
  destruct (parseProfiles lv _ _ _ Example.inOrder _ _) as [r1|m1] eqn:E1;
    [| by destruct lv; vm_compute in E1].
  destruct (parseProfiles lv _ _ _ Example.reversed _ _) as [r2|m2] eqn:E2;
    [| by destruct lv; vm_compute in E2].
  assert (r1 <> r2) as Hne.
  { intros ->. destruct lv; vm_compute in E1, E2; rewrite <-E2 in E1; discriminate. }
  pose proof (Hinj r1 r2) as Hinj'.
  destruct (Encode r1) as [x1 f1], (Encode r2) as [x2 f2]. simpl in Hinj'.
  apply Hne, Hinj'.
  destruct f1, f2; injection Heq as Heq; try discriminate.
  - exact Heq.
  - by apply append_inj_r in Heq.
Qed.

(** C5 (amended): the output of [convert] is a function of its input, the
    source tree, the timestamp and the orders in which the class maps are
    enumerated: runs that enumerate alike write the same bytes.  Runs that
    enumerate differently end alike, and their reports have the same
    sources, timestamp and packages, in the same order and under the same
    names, the classes of each package being the same up to their order. *)
Theorem conversion_determined_up_to_class_order (loopVar : LoopVar)
    (findFile : string -> option string) (readFile : string -> option ByteSlice)
    (parseSource : string -> option File)
    (ParseProfiles : string -> option (list Profile))
    (SrcDirs : list string) (UnixNano : Z) (Encode : Coverage -> string * bool)
    (o1 o2 : nat -> RangeOrder) (input : string)
    (cov : Coverage) (profiles : list Profile) :
  ((forall i entries, o1 i entries = o2 i entries) ->
   convert loopVar findFile readFile parseSource ParseProfiles SrcDirs UnixNano
           Encode o1 input
   = convert loopVar findFile readFile parseSource ParseProfiles SrcDirs UnixNano
             Encode o2 input) /\
  ((forall i, fair (o1 i)) -> (forall i, fair (o2 i)) ->
   sameRun (parseProfiles loopVar findFile readFile parseSource o1 cov profiles)
           (parseProfiles loopVar findFile readFile parseSource o2 cov profiles)).
Proof.
  split.
  - intros H. unfold convert, parseProfiles.
    destruct (ParseProfiles input) as [ps|]; [| done].
    by rewrite (parseEach_ext findFile readFile parseSource loopVar o1 o2 ps H).
  - intros H1 H2. unfold parseProfiles.
    apply parseEach_same; [done.. |]. repeat split. constructor.
Qed.

Lemma conversion_determined_up_to_class_order_witness :
  sameRun (Example.run PerLoop Example.inOrder ["a/x.go"; "a/v.go"])
          (Example.run PerLoop Example.reversed ["a/x.go"; "a/v.go"]).
Proof.
  apply (proj2 (conversion_determined_up_to_class_order PerLoop Example.findFile
           Example.readFile Example.parseSource Example.ParseProfiles Example.SrcDirs
           0 (fun _ => (EmptyString, false)) Example.inOrder Example.reversed
           EmptyString Example.cov0
           [mkProfile "a/x.go" []; mkProfile "a/v.go" []])).
  - intros i l. reflexivity.
  - intros i l. apply reverse_Permutation.
Defined.

(** ** Packages of one directory *)

(** C1 fails on the code: two files of the directory [a] leave two
    packages named [a] in the report, whichever way the loop variable is
    treated; the second is a copy of the first with the classes of the
    second file appended. *)
Theorem same_directory_two_packages :
  forall lv, exists p1 p2,
    Example.run lv Example.inOrder ["a/x.go"; "a/v.go"]
      = Done (addPackage (addPackage Example.cov0 p1) p2) /\
    Package_Name p1 = "a" /\ Package_Name p2 = "a" /\
    length (Package_Classes p1) = 2 /\ length (Package_Classes p2) = 3 /\
    ~ NoDup (Package_Name <$> [p1; p2]).
Proof.
  intros lv.
  destruct (Example.run lv Example.inOrder ["a/x.go"; "a/v.go"]) as [c|m] eqn:E;
    [| by destruct lv; vm_compute in E].
  assert (exists p1 p2, Coverage_Packages c = [p1; p2] /\
            Package_Name p1 = "a" /\ Package_Name p2 = "a" /\
            length (Package_Classes p1) = 2 /\ length (Package_Classes p2) = 3 /\
            Coverage_Sources c = Coverage_Sources Example.cov0 /\
            Coverage_Timestamp c = Coverage_Timestamp Example.cov0)
    as (p1 & p2 & Hp & H1 & H2 & H3 & H4 & Hs & Ht).
  { destruct lv; vm_compute in E; injection E as <-; eexists _, _; by repeat split. }
  exists p1, p2. repeat split; [| done.. |].
  - f_equal. destruct c as [s ps t]. simpl in *. subst. reflexivity.
  - rewrite !fmap_cons, H1, H2. intros Hnd.
    apply NoDup_cons in Hnd as [Hnotin _]. apply Hnotin. left.
Qed.

(** * Further properties of the code *)

(** ** Receivers and walks *)

Lemma Walk_app (f1 f2 : File) : forall v,
  Walk v (f1 ++ f2) = (v1 ← Walk v f1; Walk v1 f2).
Proof.
  induction f1 as [|node f1 IH]; intros v; simpl; [done |].
  destruct (Visit v node) as [v1|msg]; simpl; [apply IH | done].
Qed.

Lemma Visit_data (v v' : fileVisitor) (node : Node) :
  Visit v node = Done v' -> v_data v' = v_data v.
Proof.
  intros H. destruct (Walk_classes [node] v v') as (_ & Hd & _); [| done].
  simpl. by rewrite H.
Qed.

Lemma Visit_outcome (v : fileVisitor) (n : FuncDecl) :
  match recvName v n with
  | Done _ => returns (Visit v (FuncDeclNode n))
  | Panic msg => Visit v (FuncDeclNode n) = Panic msg
  end.
Proof.
  destruct (recvName v n) as [cn|msg] eqn:E.
  - rewrite (Visit_FuncDecl v n cn E). by eexists.
  - unfold Visit, class. by rewrite E.
Qed.

Lemma Walk_cons (v : fileVisitor) (node : Node) (f : File) :
  Walk v (node :: f) = (v1 ← Visit v node; Walk v1 f).
Proof. reflexivity. Qed.

Lemma declsOf_func (n : FuncDecl) (f : File) :
  declsOf (FuncDeclNode n :: f) = n :: declsOf f.
Proof. reflexivity. Qed.

Lemma declsOf_other (f : File) : declsOf (OtherNode :: f) = declsOf f.
Proof. reflexivity. Qed.

Lemma declsOf_app (f1 f2 : File) : declsOf (f1 ++ f2) = declsOf f1 ++ declsOf f2.
Proof. unfold declsOf. apply omap_app. Qed.

Lemma Walk_all_return (f : File) : forall v,
  Forall (fun n => returns (recvName v n)) (declsOf f) -> returns (Walk v f).
Proof.
  induction f as [|[n|] f IH]; intros v H.
  - by eexists.
  - rewrite declsOf_func in H. apply Forall_cons in H as [[cn Hn] Hf].
    rewrite Walk_cons, (Visit_FuncDecl v n cn Hn). simpl. apply IH.
    eapply Forall_impl; [exact Hf |]. intros n' Hn'. exact Hn'.
  - rewrite declsOf_other in H. rewrite Walk_cons. simpl. by apply IH.
Qed.

(** X2: a walk returns exactly when [recvName] returns on every function
    declaration of the file; otherwise it panics as [recvName] does on the
    first declaration on which it panics. *)
Theorem Walk_returns_iff (v : fileVisitor) (f : File) :
  (returns (Walk v f) <-> Forall (fun n => returns (recvName v n)) (declsOf f)) /\
  (forall pre n post msg,
      f = pre ++ FuncDeclNode n :: post ->
      Forall (fun n => returns (recvName v n)) (declsOf pre) ->
      recvName v n = Panic msg ->
      Walk v f = Panic msg).
Proof.
  split; [split |].
  - revert v. induction f as [|[n|] f IH]; intros v [v' H].
    + constructor.
    + rewrite Walk_cons in H. rewrite declsOf_func.
      pose proof (Visit_outcome v n) as Hv.
      destruct (recvName v n) as [cn|msg] eqn:E.
      * destruct Hv as [v1 Hv1]. rewrite Hv1 in H. simpl in H.
        constructor; [by eexists |].
        eapply Forall_impl; [apply (IH v1); by eexists |].
        intros n'. simpl. by rewrite (recvName_data v v1) by (by eapply Visit_data).
      * by rewrite Hv in H.
    + rewrite Walk_cons in H. rewrite declsOf_other. apply (IH v). by eexists.
  - apply Walk_all_return.
  - intros pre n post msg -> Hpre Hn. rewrite Walk_app.
    destruct (Walk_all_return pre v Hpre) as [v1 Hv1]. rewrite Hv1.
    destruct (Walk_classes pre v v1 Hv1) as (_ & Hd & _).
    pose proof (Visit_outcome v1 n) as Hv.
    rewrite (recvName_data v v1 n Hd), Hn in Hv.
    change (Walk v1 (FuncDeclNode n :: post) = Panic msg).
    by rewrite Walk_cons, Hv.
Qed.

Lemma Walk_returns_iff_witness :
  Walk {| v_name := "a/z.go"; v_data := exactly Example.z_go; v_classes := ∅ |}
       [FuncDeclNode Example.x_f; OtherNode; FuncDeclNode Example.z_h;
        FuncDeclNode Example.x_f]
  = Panic "index out of range".
Proof.
  apply (proj2 (Walk_returns_iff _ _) [FuncDeclNode Example.x_f; OtherNode]
           Example.z_h [FuncDeclNode Example.x_f] _ eq_refl).
  - repeat constructor. by exists "-".
  - reflexivity.
Defined.

(** X3: a walk keeps what the class map held: a class that was there is
    still there, under the same key, with its name and file name, and its
    methods and lines are those it had followed by the ones the walk
    added; the visitor's file name and bytes are unchanged. *)
Theorem Walk_keeps_classes (v v' : fileVisitor) (f : File) :
  Walk v f = Done v' ->
  v_name v' = v_name v /\ v_data v' = v_data v /\
  forall cn c, v_classes v !! cn = Some c ->
    exists c' ms,
      v_classes v' !! cn = Some c' /\
      Class_Name c' = Class_Name c /\ Class_Filename c' = Class_Filename c /\
      ms = map (method v) (declsNamed v cn f) /\
      Class_Methods c' = Class_Methods c ++ ms /\
      Class_Lines c' = Class_Lines c ++ concat (map Method_Lines ms).
Proof.
  intros H. destruct (Walk_classes f v v' H) as (Hn & Hd & Hc).
  split; [done |]. split; [done |].
  intros cn c Hcn. specialize (Hc cn). rewrite Hcn in Hc. unfold afterWalk in Hc.
  simpl in Hc.
  exists (merged c (map (method v) (declsNamed v cn f))), (map (method v) (declsNamed v cn f)).
  destruct (merged_fields c (map (method v) (declsNamed v cn f))) as (H1 & H2 & H3 & H4).
  by repeat split.
Qed.

Lemma Walk_keeps_classes_witness :
  let c := {| Class_Name := "-"; Class_Filename := "other.go";
              Class_Methods := [mkMethod "old" []]; Class_Lines := [] |} in
  let v := {| v_name := "a/x.go"; v_data := exactly Example.x_go; v_classes := {[ "-" := c ]} |} in
  exists v' c', Walk v [FuncDeclNode Example.x_f; FuncDeclNode Example.x_g] = Done v' /\
    v_classes v' !! "-" = Some c' /\
    Class_Filename c' = "other.go" /\
    Class_Methods c' = [mkMethod "old" []; mkMethod "f" []].
Proof.
  intros c v.
  destruct (Walk v [FuncDeclNode Example.x_f; FuncDeclNode Example.x_g]) as [v'|msg] eqn:E;
    [| vm_compute in E; discriminate].
  destruct (Walk_keeps_classes v v' _ E) as (_ & _ & Hc).
  destruct (Hc "-" c) as (c' & ms & Hl & _ & Hf & Hms & Hm & _).
  { apply lookup_singleton_eq. }
  exists v', c'. repeat split; [exact Hl | exact Hf |].
  rewrite Hm, Hms. reflexivity.
Defined.

Lemma totalMethods_insert_fresh (m : gmap string Class) (cn : string) (c : Class) :
  m !! cn = None ->
  totalMethods (<[cn := c]> m) = length (Class_Methods c) + totalMethods m.
Proof.
  intros H. unfold totalMethods. by rewrite (map_to_list_insert m cn c H).
Qed.

Lemma totalMethods_visit (m : gmap string Class) (cn : string) (new : Class) (mt : Method) :
  Class_Methods new = [] ->
  totalMethods (<[cn := addMethod mt (default new (m !! cn))]> m) = S (totalMethods m).
Proof.
  intros Hnew. destruct (m !! cn) as [c|] eqn:E; simpl.
  - rewrite <-(insert_delete_eq m).
    rewrite totalMethods_insert_fresh by apply lookup_delete_eq.
    rewrite <-(insert_delete_id m cn c E) at 2.
    rewrite totalMethods_insert_fresh by apply lookup_delete_eq.
    simpl. rewrite length_app. simpl. lia.
  - rewrite totalMethods_insert_fresh by done. simpl. by rewrite Hnew.
Qed.

(** X4: a walk adds one method per function declaration, whatever the
    owner-type names are: the classes hold, all together, as many methods
    more as the file has function declarations. *)
Theorem Walk_counts_methods (f : File) : forall v v',
  Walk v f = Done v' ->
  totalMethods (v_classes v') = totalMethods (v_classes v) + length (declsOf f).
Proof.
  induction f as [|[n|] f IH]; intros v v' H.
  - injection H as <-. simpl. lia.
  - rewrite Walk_cons in H. rewrite declsOf_func.
    pose proof (Visit_outcome v n) as Hv.
    destruct (recvName v n) as [cn|msg] eqn:E; [| by rewrite Hv in H].
    rewrite (Visit_FuncDecl v n cn E) in H. simpl in H.
    rewrite (IH _ _ H). simpl.
    rewrite (totalMethods_visit _ cn (newClass v cn) (method v n) eq_refl). lia.
  - rewrite Walk_cons in H. rewrite declsOf_other. simpl in H. by apply IH.
Qed.

Lemma Walk_counts_methods_witness :
  exists v', Walk {| v_name := "a/x.go"; v_data := exactly Example.x_go; v_classes := ∅ |}
                  [FuncDeclNode Example.x_f; OtherNode; FuncDeclNode Example.x_g;
                   FuncDeclNode Example.x_f] = Done v' /\
             totalMethods (v_classes v') = 3.
Proof.
  destruct (Walk {| v_name := "a/x.go"; v_data := exactly Example.x_go; v_classes := ∅ |}
                 [FuncDeclNode Example.x_f; OtherNode; FuncDeclNode Example.x_g;
                  FuncDeclNode Example.x_f]) as [v'|msg] eqn:E;
    [| vm_compute in E; discriminate].
  exists v'. split; [reflexivity |].
  rewrite (Walk_counts_methods _ _ _ E). reflexivity.
Defined.

(** ** The package lookup *)

Lemma rangeFind_PerIteration (l : list Package) (x : string) :
  rangeFind PerIteration l x = last (List.filter (named x) l).
Proof.
  induction l as [|q l IH] using rev_ind; [done |].
  rewrite rangeFind_snoc, List.filter_app. simpl.
  change (String.eqb (Package_Name q) x) with (named x q).
  destruct (named x q).
  - by rewrite last_snoc.
  - by rewrite app_nil_r.
Qed.

Lemma rangeFind_PerLoop (l : list Package) (x : string) :
  rangeFind PerLoop l x = if existsb (named x) l then last l else None.
Proof.
  induction l as [|q l IH] using rev_ind; [done |].
  rewrite rangeFind_snoc, existsb_app, last_snoc, IH. simpl.
  change (String.eqb (Package_Name q) x) with (named x q).
  destruct (named x q); simpl.
  - by rewrite orb_true_r.
  - rewrite orb_false_r. destruct (existsb (named x) l) eqn:E; [| done].
    destruct (last l) as [p|] eqn:El; [done |].
    apply last_None in El as ->. done.
Qed.

Lemma rangeFind_PerIteration_name (l : list Package) (x : string) (p : Package) :
  rangeFind PerIteration l x = Some p -> Package_Name p = x.
Proof.
  rewrite rangeFind_PerIteration. intros H.
  assert (In p (List.filter (named x) l)) as Hin.
  { apply list_elem_of_In. destruct (List.filter (named x) l) as [|a r] using rev_ind;
      [done |]. rewrite last_snoc in H. injection H as ->.
    apply elem_of_app. right. left. }
  apply List.filter_In in Hin as [_ Hn]. by apply String.eqb_eq in Hn.
Qed.

(** X5: what the loop over [cov.Packages] selects.  With one loop variable
    per iteration it is the last package that bears the name; with one
    variable for the whole loop it is the last package of the list,
    whatever its name, as soon as some package bears the name. *)
Theorem rangeFind_selects (l : list Package) (x : string) :
  rangeFind PerIteration l x = last (List.filter (named x) l) /\
  rangeFind PerLoop l x = (if existsb (named x) l then last l else None) /\
  (forall p, rangeFind PerIteration l x = Some p -> Package_Name p = x) /\
  (forall lv, rangeFind lv l x = None <-> Forall (fun q => Package_Name q <> x) l).
Proof.
  split; [apply rangeFind_PerIteration |].
  split; [apply rangeFind_PerLoop |].
  split.
  - intros p. apply rangeFind_PerIteration_name.
  - intros lv. split; [| apply rangeFind_absent].
    induction l as [|q l IH] using rev_ind; [constructor |].
    rewrite rangeFind_snoc. intros H. apply Forall_app.
    destruct (String.eqb_spec (Package_Name q) x) as [|Hne]; [done |].
    split; [| by apply Forall_singleton].
    apply IH. destruct lv; [| done]. by destruct (rangeFind PerLoop l x).
Qed.

Lemma rangeFind_selects_witness :
  let a1 := {| Package_Name := "a"; Package_Classes := [] |} in
  let b := {| Package_Name := "b"; Package_Classes := [] |} in
  rangeFind PerIteration [a1; b] "a" = Some a1 /\
  rangeFind PerLoop [a1; b] "a" = Some b.
Proof.
  intros a1 b.
  destruct (rangeFind_selects [a1; b] "a") as (H1 & H2 & _).
  split; [rewrite H1 | rewrite H2]; reflexivity.
Defined.

(** ** Outcomes of [parseFile] *)

Section FileOutcomes.

Variable findFile : string -> option string.
Variable readFile : string -> option ByteSlice.
Variable parseSource : string -> option File.

#[local] Abbreviation oneFile lv := (parseFile lv findFile readFile parseSource).
#[local] Abbreviation good := (usable findFile readFile parseSource).
#[local] Abbreviation walk := (walked findFile readFile parseSource).

Implicit Types (lv : LoopVar) (cov : Coverage) (order : RangeOrder).

(** The three ways a call of [parseFile] ends. *)
Lemma parseFile_cases lv order cov (fileName : string) :
  (good fileName = false /\ walk fileName = None /\
   exists e, oneFile lv order cov fileName = Done (Some e, cov)) \/
  (good fileName = true /\ walk fileName = None /\
   exists msg, oneFile lv order cov fileName = Panic msg) \/
  (good fileName = true /\ exists v, walk fileName = Some v /\
   oneFile lv order cov fileName
   = Done (None, addPackage cov (addClasses (basePackage lv cov fileName)
                                            (contribution order v)))).
Proof.
  unfold usable, walked.
  destruct (findFile fileName) as [path|] eqn:Hf; simpl.
  - destruct (ParseFile readFile parseSource path) as [parsed|] eqn:Hp; simpl.
    + destruct (parseFile_found findFile readFile parseSource lv order cov
                  fileName path parsed Hf Hp) as (data & Hr & ->).
      simpl. rewrite Hr. simpl.
      destruct (Walk _ parsed) as [v|msg]; simpl.
      * right. right. split; [done |]. by exists v.
      * right. left. repeat split. by exists msg.
    + left. repeat split.
      apply (parseFile_unusable findFile readFile parseSource lv order cov fileName).
      right. eauto.
  - left. repeat split.
    apply (parseFile_unusable findFile readFile parseSource lv order cov fileName).
    by left.
Qed.

End FileOutcomes.

(** X6: a call of [parseFile] that returns an error has left the
    accumulator as it was, and the file was not found or did not parse; a
    call that returns no error has appended one package to it, for a file
    that was found and parsed; a call that panics has done so in the walk
    of a file that was found and parsed. *)
Theorem parseFile_outcomes (loopVar : LoopVar)
    (findFile : string -> option string) (readFile : string -> option ByteSlice)
    (parseSource : string -> option File)
    (order : RangeOrder) (cov : Coverage) (fileName : string) :
  let result := parseFile loopVar findFile readFile parseSource order cov fileName in
  let found := usable findFile readFile parseSource fileName in
  (forall e cov', result = Done (Some e, cov') -> cov' = cov /\ found = false) /\
  (forall cov', result = Done (None, cov') ->
      found = true /\
      exists pkg, cov' = addPackage cov pkg /\
                  Coverage_Packages cov' = Coverage_Packages cov ++ [pkg]) /\
  (forall msg, result = Panic msg ->
      found = true /\ walked findFile readFile parseSource fileName = None).
Proof.
  intros result found. subst result found.
  destruct (parseFile_cases findFile readFile parseSource loopVar order cov fileName)
    as [(Hu & Hw & e0 & ->) | [(Hu & Hw & m0 & ->) | (Hu & v & Hw & ->)]].
  - split; [| split]; [| done..]. by intros e1 cov' [= _ <-].
  - split; [| split]; [done.. |]. by intros msg [= _].
  - split; [| split]; [done | | done]. intros cov' [= <-]. eauto.
Qed.

Lemma parseFile_outcomes_witness :
  usable Example.findFile Example.readFile Example.parseSource "a/bad.go" = false /\
  usable Example.findFile Example.readFile Example.parseSource "a/z.go" = true /\
  walked Example.findFile Example.readFile Example.parseSource "a/z.go" = None.
Proof.
  destruct (parseFile_outcomes PerLoop Example.findFile Example.readFile
              Example.parseSource (fun l => l) Example.cov0 "a/bad.go") as (He & _ & _).
  destruct (parseFile_outcomes PerLoop Example.findFile Example.readFile
              Example.parseSource (fun l => l) Example.cov0 "a/z.go") as (_ & _ & Hp).
  split; [exact (proj2 (He ErrSyntax Example.cov0 eq_refl)) |].
  exact (Hp "index out of range" eq_refl).
Defined.

(** ** Whole runs *)

Section WholeRuns.

Variable findFile : string -> option string.
Variable readFile : string -> option ByteSlice.
Variable parseSource : string -> option File.

#[local] Abbreviation oneOf lv := (parseFile lv findFile readFile parseSource).
#[local] Abbreviation loop lv := (parseEach lv findFile readFile parseSource).
#[local] Abbreviation isGood := (usable findFile readFile parseSource).
#[local] Abbreviation walkOf := (walked findFile readFile parseSource).

Implicit Types (lv : LoopVar) (cov : Coverage) (orders : nat -> RangeOrder).

Lemma parseEach_cons lv orders (i : nat) cov (p : Profile) (rest : list Profile) :
  loop lv orders i cov (p :: rest)
  = ('(_, cov1) ← oneOf lv (orders i) cov (FileName p); loop lv orders (S i) cov1 rest).
Proof. reflexivity. Qed.

Lemma parseEach_app lv orders (l1 l2 : list Profile) : forall i cov,
  loop lv orders i cov (l1 ++ l2)
  = (cov1 ← loop lv orders i cov l1; loop lv orders (i + length l1) cov1 l2).
Proof.
  induction l1 as [|p l1 IH]; intros i cov.
  - simpl. by rewrite Nat.add_0_r.
  - change ((p :: l1) ++ l2) with (p :: (l1 ++ l2)). rewrite !parseEach_cons.
    destruct (oneOf lv (orders i) cov (FileName p)) as [[e c]|msg]; simpl; [| done].
    rewrite IH. by replace (S i + length l1) with (i + S (length l1)) by lia.
Qed.

(** The loop only appends, one package per usable entry. *)
Lemma parseEach_grows lv orders (l : list Profile) : forall i cov cov',
  loop lv orders i cov l = Done cov' ->
  Coverage_Sources cov' = Coverage_Sources cov /\
  Coverage_Timestamp cov' = Coverage_Timestamp cov /\
  exists more, Coverage_Packages cov' = Coverage_Packages cov ++ more /\
               length more = length (List.filter isGood (map FileName l)).
Proof.
  induction l as [|p l IH]; intros i cov cov' H.
  - injection H as <-. repeat split. exists []. by rewrite app_nil_r.
  - rewrite parseEach_cons in H. simpl.
    destruct (parseFile_cases findFile readFile parseSource lv (orders i) cov (FileName p))
      as [(Hu & _ & e0 & He) | [(Hu & _ & m0 & He) | (Hu & v & _ & He)]];
      rewrite He in H; simpl in H; [| done |]; rewrite Hu.
    + by apply IH in H.
    + apply IH in H as (Hs & Ht & more & Hp & Hl). simpl in *.
      repeat split; [done.. |].
      eexists (_ :: more). rewrite Hp, <-app_assoc. split; [done |]. simpl. by rewrite Hl.
Qed.

End WholeRuns.

Lemma parseProfiles_one_package_per_usable_file_aux (loopVar : LoopVar)
    (findFile : string -> option string) (readFile : string -> option ByteSlice)
    (parseSource : string -> option File)
    (orders : nat -> RangeOrder) (cov cov' : Coverage) (profiles : list Profile) :
  parseProfiles loopVar findFile readFile parseSource orders cov profiles = Done cov' ->
  Coverage_Sources cov' = Coverage_Sources cov /\
  Coverage_Timestamp cov' = Coverage_Timestamp cov /\
  length (Coverage_Packages cov')
    = length (List.filter (usable findFile readFile parseSource) (map FileName profiles)).
Proof.
  unfold parseProfiles. intros H.
  apply parseEach_grows in H as (Hs & Ht & more & Hp & Hl). simpl in *.
  repeat split; [done.. |]. by rewrite Hp.
Qed.

(** X7: a run of [parseProfiles] that returns leaves in the report the
    sources and the timestamp it was given, drops the packages it was
    given, and holds one package for every profile entry whose file was
    found and parsed, no more and no fewer: packages are never merged. *)
Theorem parseProfiles_one_package_per_usable_file (loopVar : LoopVar)
    (findFile : string -> option string) (readFile : string -> option ByteSlice)
    (parseSource : string -> option File)
    (orders : nat -> RangeOrder) (cov cov' : Coverage) (profiles : list Profile) :
  parseProfiles loopVar findFile readFile parseSource orders cov profiles = Done cov' ->
  Coverage_Sources cov' = Coverage_Sources cov /\
  Coverage_Timestamp cov' = Coverage_Timestamp cov /\
  length (Coverage_Packages cov')
    = length (List.filter (usable findFile readFile parseSource) (map FileName profiles)).
Proof. apply parseProfiles_one_package_per_usable_file_aux. Qed.

Lemma parseProfiles_one_package_per_usable_file_witness :
  exists cov',
    Example.run PerIteration Example.inOrder
      ["a/x.go"; "nope.go"; "a/y.go"; "a/bad.go"; "a/v.go"] = Done cov' /\
    length (Coverage_Packages cov') = 3 /\
    Coverage_Sources cov' = map mkSource Example.SrcDirs.
Proof.
  destruct (Example.run PerIteration Example.inOrder
              ["a/x.go"; "nope.go"; "a/y.go"; "a/bad.go"; "a/v.go"]) as [cov'|msg] eqn:E;
    [| vm_compute in E; discriminate].
  exists cov'. split; [reflexivity |].
  destruct (parseProfiles_one_package_per_usable_file _ _ _ _ _ _ _ _ E) as (Hs & _ & Hl).
  split; [rewrite Hl; reflexivity | exact Hs].
Defined.

(** X8: the name of the package [parseFile] appends.  With one loop
    variable per iteration it is the directory of the file; with one
    variable for the whole loop it is the directory of the file only when
    no package bears that name yet, and otherwise the name of the last
    package of the accumulator, whatever directory the file is in. *)
Theorem parseFile_package_name (loopVar : LoopVar)
    (findFile : string -> option string) (readFile : string -> option ByteSlice)
    (parseSource : string -> option File)
    (order : RangeOrder) (cov cov' : Coverage) (fileName : string) :
  parseFile loopVar findFile readFile parseSource order cov fileName = Done (None, cov') ->
  exists pkg,
    cov' = addPackage cov pkg /\
    Package_Name pkg =
      match loopVar with
      | PerIteration => pkgPathOf fileName
      | PerLoop =>
          if existsb (named (pkgPathOf fileName)) (Coverage_Packages cov)
          then default (pkgPathOf fileName) (Package_Name <$> last (Coverage_Packages cov))
          else pkgPathOf fileName
      end.
Proof.
  intros H.
  destruct (parseFile_cases findFile readFile parseSource loopVar order cov fileName)
    as [(_ & _ & e0 & He) | [(_ & _ & m0 & He) | (_ & v & _ & He)]];
    rewrite He in H; [done.. |].
  injection H as <-. eexists. split; [done |]. simpl. unfold basePackage.
  destruct loopVar.
  - rewrite rangeFind_PerLoop.
    destruct (existsb _ _); [| done]. by destruct (last _).
  - destruct (rangeFind PerIteration _ _) as [p|] eqn:E; [| done]. simpl.
    by apply rangeFind_PerIteration_name in E.
Qed.

Lemma parseFile_package_name_witness :
  let foo := {| Package_Name := EmptyString; Package_Classes := [] |} in
  let a := {| Package_Name := "a"; Package_Classes := [] |} in
  let cov := addPackage (addPackage Example.cov0 a) foo in
  exists pkg,
    parseFile PerLoop Example.findFile Example.readFile Example.parseSource
              (fun l => l) cov "a/v.go" = Done (None, addPackage cov pkg) /\
    Package_Name pkg = EmptyString.
Proof.
  intros foo a cov.
  destruct (parseFile PerLoop Example.findFile Example.readFile Example.parseSource
              (fun l => l) cov "a/v.go") as [[[e|] c]|msg] eqn:E;
    [vm_compute in E; discriminate | | vm_compute in E; discriminate].
  destruct (parseFile_package_name _ _ _ _ _ _ _ _ E) as (pkg & -> & Hn).
  exists pkg. split; [reflexivity | exact Hn].
Defined.

(** ** The last package of a directory *)

Section Latest.

Variable findFile : string -> option string.
Variable readFile : string -> option ByteSlice.
Variable parseSource : string -> option File.

Implicit Types (cov : Coverage) (orders : nat -> RangeOrder).

Lemma latestClasses_snoc (l : list Package) (pkg : Package) (d : string) :
  latestClasses (l ++ [pkg]) d
  = if named d pkg then Package_Classes pkg else latestClasses l d.
Proof.
  unfold latestClasses. rewrite List.filter_app. simpl.
  destruct (named d pkg); [by rewrite last_snoc | by rewrite app_nil_r].
Qed.

Lemma basePackage_PerIteration cov (fileName : string) :
  Package_Name (basePackage PerIteration cov fileName) = pkgPathOf fileName /\
  Package_Classes (basePackage PerIteration cov fileName)
  = latestClasses (Coverage_Packages cov) (pkgPathOf fileName).
Proof.
  unfold basePackage, latestClasses. rewrite <-rangeFind_PerIteration.
  destruct (rangeFind PerIteration _ _) as [p|] eqn:E; simpl; [| done].
  split; [by apply rangeFind_PerIteration_name in E | done].
Qed.

Lemma parseEach_latest orders (d : string) (l : list Profile) : forall i cov cov',
  parseEach PerIteration findFile readFile parseSource orders i cov l = Done cov' ->
  latestClasses (Coverage_Packages cov') d
  = latestClasses (Coverage_Packages cov) d
    ++ dirClasses findFile readFile parseSource orders i d l.
Proof.
  induction l as [|p l IH]; intros i cov cov' H.
  - injection H as <-. simpl. by rewrite app_nil_r.
  - change (parseEach PerIteration findFile readFile parseSource orders i cov (p :: l))
      with ('(_, cov1) ← parseFile PerIteration findFile readFile parseSource
                                   (orders i) cov (FileName p);
            parseEach PerIteration findFile readFile parseSource orders (S i) cov1 l) in H.
    simpl.
    destruct (parseFile_cases findFile readFile parseSource PerIteration (orders i)
                cov (FileName p))
      as [(_ & Hw & e0 & He) | [(_ & _ & m0 & He) | (_ & v & Hw & He)]];
      rewrite He in H; simpl in H; [| done |]; rewrite Hw.
    + rewrite (IH _ _ _ H). by destruct (String.eqb _ d).
    + rewrite (IH _ _ _ H). simpl. rewrite latestClasses_snoc.
      destruct (basePackage_PerIteration cov (FileName p)) as [Hn Hc].
      unfold named. simpl. rewrite Hn.
      destruct (String.eqb_spec (pkgPathOf (FileName p)) d) as [<-|Hne].
      * by rewrite Hc, <-app_assoc.
      * done.
Qed.

End Latest.

(** X9: with one loop variable per iteration, the last package that
    bears the name of a directory holds, after a run that returns, the
    classes of all the files of that directory, file after file in the
    order of the profile: the earlier packages of that name are the stages
    of its growth. *)
Theorem parseProfiles_latest_package_accumulates
    (findFile : string -> option string) (readFile : string -> option ByteSlice)
    (parseSource : string -> option File)
    (orders : nat -> RangeOrder) (cov cov' : Coverage) (profiles : list Profile) :
  parseProfiles PerIteration findFile readFile parseSource orders cov profiles = Done cov' ->
  forall d, latestClasses (Coverage_Packages cov') d
            = dirClasses findFile readFile parseSource orders 0 d profiles.
Proof.
  unfold parseProfiles. intros H d.
  by rewrite (parseEach_latest _ _ _ orders d profiles _ _ _ H).
Qed.

Lemma parseProfiles_latest_package_accumulates_witness :
  exists cov',
    Example.run PerIteration Example.inOrder ["a/x.go"; "foo.go"; "a/v.go"] = Done cov' /\
    Class_Filename <$> latestClasses (Coverage_Packages cov') "a"
      = ["a/x.go"; "a/x.go"; "a/v.go"].
Proof.
  destruct (Example.run PerIteration Example.inOrder ["a/x.go"; "foo.go"; "a/v.go"])
    as [cov'|msg] eqn:E; [| vm_compute in E; discriminate].
  exists cov'. split; [reflexivity |].
  rewrite (parseProfiles_latest_package_accumulates _ _ _ _ _ _ _ E "a").
  by vm_compute.
Defined.

(** ** A panic in the walk of one file *)

Lemma bind_Done {A B} (a : A) (f : A -> Outcome B) : (Done a ≫= f) = f a.
Proof. reflexivity. Qed.

(** X10: a file that is found and parses but on whose declarations the
    walk panics aborts the whole conversion, when the entries before it do
    not: [convert] panics and has written nothing, whatever the entries
    after it are. *)
Theorem convert_aborts_on_walk_panic (loopVar : LoopVar)
    (findFile : string -> option string) (readFile : string -> option ByteSlice)
    (parseSource : string -> option File)
    (ParseProfiles : string -> option (list Profile))
    (SrcDirs : list string) (UnixNano : Z) (Encode : Coverage -> string * bool)
    (orders : nat -> RangeOrder) (input : string)
    (before after : list Profile) (bad : Profile) :
  ParseProfiles input = Some (before ++ bad :: after) ->
  (forall cov, returns (parseProfiles loopVar findFile readFile parseSource
                                      orders cov before)) ->
  usable findFile readFile parseSource (FileName bad) = true ->
  walked findFile readFile parseSource (FileName bad) = None ->
  exists msg,
    convert loopVar findFile readFile parseSource ParseProfiles SrcDirs UnixNano
            Encode orders input = (EmptyString, Panic msg).
Proof.
  intros HP Hbefore Hu Hw. unfold convert. rewrite HP.
  unfold parseProfiles in *. rewrite parseEach_app.
  destruct (Hbefore {| Coverage_Sources := map mkSource SrcDirs;
                       Coverage_Packages := [];
                       Coverage_Timestamp := (UnixNano `quot` 1000000)%Z |})
    as [cov1 ->].
  rewrite bind_Done, parseEach_cons.
  destruct (parseFile_cases findFile readFile parseSource loopVar
              (orders (0 + length before)) cov1 (FileName bad))
    as [(Hu' & _) | [(_ & _ & m0 & He) | (_ & v & Hw' & _)]]; [congruence | | congruence].
  rewrite He. simpl. by exists m0.
Qed.

Lemma convert_aborts_on_walk_panic_witness :
  exists msg,
    convert PerLoop Example.findFile Example.readFile Example.parseSource
            (fun _ => Some [mkProfile "a/x.go" []; mkProfile "a/z.go" [];
                            mkProfile "foo.go" []])
            Example.SrcDirs 0 (fun _ => ("<coverage/>", false)) Example.inOrder
            "mode: set"
    = (EmptyString, Panic msg).
Proof.
  apply (convert_aborts_on_walk_panic PerLoop Example.findFile Example.readFile
           Example.parseSource _ Example.SrcDirs 0 _ Example.inOrder "mode: set"
           [mkProfile "a/x.go" []] [mkProfile "foo.go" []] (mkProfile "a/z.go" [])).
  - reflexivity.
  - intros cov. eexists. reflexivity.
  - reflexivity.
  - reflexivity.
Defined.

(** ** The shape of the output *)

(** X11: [convert] returns only when the profile parses, the run of
    [parseProfiles] over it returns and the encoder succeeds on the report
    of that run; what it has written is then the XML header, the DOCTYPE
    line, the encoding of that report and a final newline.  The run starts
    from one source per source directory, in order, no package and the
    timestamp in milliseconds, and the report keeps the sources and the
    timestamp.  When [convert] panics, either the profile did not parse or
    the run panicked, and nothing is written, or the encoder failed on the
    report of the run, and the header, the DOCTYPE line and what the
    encoder wrote are written. *)
Theorem convert_output_shape (loopVar : LoopVar)
    (findFile : string -> option string) (readFile : string -> option ByteSlice)
    (parseSource : string -> option File)
    (ParseProfiles : string -> option (list Profile))
    (SrcDirs : list string) (UnixNano : Z) (Encode : Coverage -> string * bool)
    (orders : nat -> RangeOrder) (input : string) :
  let start := {| Coverage_Sources := map mkSource SrcDirs;
                  Coverage_Packages := [];
                  Coverage_Timestamp := (UnixNano `quot` 1000000)%Z |} in
  let run := parseProfiles loopVar findFile readFile parseSource orders start in
  let '(out, ended) :=
    convert loopVar findFile readFile parseSource ParseProfiles SrcDirs UnixNano
            Encode orders input in
  match ended with
  | Done _ =>
      exists profiles report xml,
        ParseProfiles input = Some profiles /\
        run profiles = Done report /\
        Encode report = (xml, false) /\
        out = ((Header +:+ Doctype) +:+ xml) +:+ newline /\
        Coverage_Sources report = map mkSource SrcDirs /\
        Coverage_Timestamp report = (UnixNano `quot` 1000000)%Z /\
        length (Coverage_Packages report)
          = length (List.filter (usable findFile readFile parseSource)
                                (map FileName profiles))
  | Panic msg =>
      (out = EmptyString /\
       (ParseProfiles input = None \/
        exists profiles, ParseProfiles input = Some profiles /\
                         run profiles = Panic msg)) \/
      (exists profiles report xml,
         ParseProfiles input = Some profiles /\
         run profiles = Done report /\
         Encode report = (xml, true) /\
         out = (Header +:+ Doctype) +:+ xml)
  end.
Proof.
  intros start run. subst run start. unfold convert.
  destruct (ParseProfiles input) as [profiles|]; [| left; split; [done | by left]].
  destruct (parseProfiles _ _ _ _ _ _ profiles) as [report|msg] eqn:E;
    [| left; split; [done | right; by exists profiles]].
  destruct (parseProfiles_one_package_per_usable_file_aux loopVar findFile readFile
              parseSource orders _ report profiles E) as (Hs & Ht & Hl).
  destruct (Encode report) as [xml failed] eqn:EE.
  destruct failed.
  - right. by exists profiles, report, xml.
  - exists profiles, report, xml. by repeat split.
Qed.

Lemma convert_output_shape_witness :
  exists report,
    Example.run PerIteration Example.inOrder ["foo.go"] = Done report /\
    length (Coverage_Packages report) = 1 /\
    convert PerIteration Example.findFile Example.readFile Example.parseSource
            Example.ParseProfiles Example.SrcDirs 0 (fun _ => ("<coverage/>", false))
            Example.inOrder Example.foo_profile
    = (((Header +:+ Doctype) +:+ "<coverage/>") +:+ newline, Done tt).
Proof.
  pose proof (convert_output_shape PerIteration Example.findFile Example.readFile
                Example.parseSource Example.ParseProfiles Example.SrcDirs 0
                (fun _ => ("<coverage/>", false)) Example.inOrder Example.foo_profile)
    as Hshape.
  cbv zeta in Hshape.
  destruct (convert PerIteration Example.findFile Example.readFile Example.parseSource
              Example.ParseProfiles Example.SrcDirs 0 (fun _ => ("<coverage/>", false))
              Example.inOrder Example.foo_profile) as [out [[]|msg]] eqn:E;
    [| vm_compute in E; discriminate].
  destruct Hshape as (profiles & report & xml & HP & Hrun & [= <-] & -> & _ & _ & Hlen).
  vm_compute in HP. injection HP as <-.
  exists report. split; [exact Hrun |]. split; [| reflexivity].
  rewrite Hlen. reflexivity.
Defined.

(** ** Files with one owner-type name *)

Section OneOwner.

Variable findFile : string -> option string.
Variable readFile : string -> option ByteSlice.
Variable parseSource : string -> option File.

Lemma fair_short (o : RangeOrder) (l : list (string * Class)) :
  fair o -> length l <= 1 -> o l = l.
Proof.
  intros Hfair Hl. pose proof (Hfair l) as Hp.
  destruct l as [|a [|b r]]; simpl in Hl; [| | lia].
  - by apply Permutation_nil_r in Hp.
  - by apply Permutation_singleton_r in Hp.
Qed.

(** A walk over declarations of one owner-type name leaves one class at
    most. *)
Lemma Walk_one_owner (v v' : fileVisitor) (f : File) :
  v_classes v = ∅ ->
  Walk v f = Done v' ->
  (forall n1 n2, n1 ∈ declsOf f -> n2 ∈ declsOf f -> recvName v n1 = recvName v n2) ->
  length (map_to_list (v_classes v')) <= 1.
Proof.
  intros Hempty HW Hsame.
  pose proof (NoDup_fst_map_to_list (v_classes v')) as Hnd.
  assert (forall k1 k2, k1 ∈ (map_to_list (v_classes v')).*1 ->
                        k2 ∈ (map_to_list (v_classes v')).*1 -> k1 = k2) as Heq.
  { assert (forall k, k ∈ (map_to_list (v_classes v')).*1 ->
              exists n, n ∈ declsOf f /\ recvName v n = Done k) as Hkey.
    { intros k Hk. apply list_elem_of_fmap in Hk as ([k' c] & -> & Hin).
      apply elem_of_map_to_list in Hin. simpl.
      rewrite (Walk_from_empty f v v' Hempty HW) in Hin.
      apply declsNamed_nonempty. by destruct (declsNamed v k' f). }
    intros k1 k2 H1 H2.
    destruct (Hkey k1 H1) as (n1 & Hn1 & Hr1), (Hkey k2 H2) as (n2 & Hn2 & Hr2).
    specialize (Hsame n1 n2 Hn1 Hn2). congruence. }
  rewrite <-(length_fmap fst).
  destruct ((map_to_list (v_classes v')).*1) as [|a [|b r]]; simpl; [lia.. |].
  exfalso. apply NoDup_cons in Hnd as [Hnotin _]. apply Hnotin.
  rewrite (Heq a b); [left | left | right; left].
Qed.

Lemma parseFile_one_owner (lv : LoopVar) (o1 o2 : RangeOrder) (cov : Coverage)
    (fileName : string) :
  fair o1 -> fair o2 -> oneOwner findFile readFile parseSource fileName ->
  parseFile lv findFile readFile parseSource o1 cov fileName
  = parseFile lv findFile readFile parseSource o2 cov fileName.
Proof.
  intros H1 H2 Hone. unfold parseFile.
  destruct (findFile fileName) as [path|] eqn:Hf; [| done].
  destruct (ParseFile readFile parseSource path) as [parsed|] eqn:Hp; [| done].
  destruct (readFile path) as [data|] eqn:Hr; [| done].
  destruct (Walk _ parsed) as [v|msg] eqn:HW; simpl; [| done].
  assert (length (map_to_list (v_classes v)) <= 1) as Hlen.
  { eapply Walk_one_owner; [| exact HW |]; [done |].
    intros n1 n2 Hn1 Hn2. by apply (Hone path parsed data). }
  by rewrite (fair_short o1 _ H1 Hlen), (fair_short o2 _ H2 Hlen).
Qed.

End OneOwner.

(** X12: when, in every file of the profile, all the function
    declarations have the same owner-type name, the order in which the
    class maps are enumerated does not matter: two runs give the same
    report and [convert] writes the same bytes. *)
Theorem convert_deterministic_for_one_owner_files (loopVar : LoopVar)
    (findFile : string -> option string) (readFile : string -> option ByteSlice)
    (parseSource : string -> option File)
    (ParseProfiles : string -> option (list Profile))
    (SrcDirs : list string) (UnixNano : Z) (Encode : Coverage -> string * bool)
    (o1 o2 : nat -> RangeOrder) (input : string) :
  (forall i, fair (o1 i)) -> (forall i, fair (o2 i)) ->
  (forall profiles p, ParseProfiles input = Some profiles -> p ∈ profiles ->
                      oneOwner findFile readFile parseSource (FileName p)) ->
  convert loopVar findFile readFile parseSource ParseProfiles SrcDirs UnixNano
          Encode o1 input
  = convert loopVar findFile readFile parseSource ParseProfiles SrcDirs UnixNano
            Encode o2 input.
Proof.
  intros H1 H2 Hone. unfold convert, parseProfiles.
  destruct (ParseProfiles input) as [profiles|]; [| done].
  specialize (Hone profiles).
  assert (forall i cov,
            parseEach loopVar findFile readFile parseSource o1 i cov profiles
            = parseEach loopVar findFile readFile parseSource o2 i cov profiles) as ->; [| done].
  assert (forall p, p ∈ profiles ->
            oneOwner findFile readFile parseSource (FileName p)) as Hall by auto.
  clear Hone. induction profiles as [|p l IH]; intros i cov; [done |].
  rewrite !parseEach_cons.
  rewrite (parseFile_one_owner findFile readFile parseSource loopVar (o1 i) (o2 i)
             cov (FileName p) (H1 i) (H2 i)) by (apply Hall; left).
  destruct (parseFile _ _ _ _ (o2 i) cov _) as [[e c]|msg]; simpl; [| done].
  apply IH. intros q Hq. apply Hall. by right.
Qed.

Lemma convert_deterministic_for_one_owner_files_witness :
  convert PerIteration Example.findFile Example.readFile Example.parseSource
          Example.ParseProfiles Example.SrcDirs 0 (fun _ => ("<coverage/>", false))
          Example.inOrder Example.foo_profile
  = convert PerIteration Example.findFile Example.readFile Example.parseSource
            Example.ParseProfiles Example.SrcDirs 0 (fun _ => ("<coverage/>", false))
            Example.reversed Example.foo_profile.
Proof.
  apply convert_deterministic_for_one_owner_files.
  - intros i l. reflexivity.
  - intros i l. apply reverse_Permutation.
  - intros profiles p [= <-] Hp. apply list_elem_of_singleton in Hp as ->.
    intros path parsed data n1 n2 [= <-] [= <-] _ Hn1 Hn2 v.
    apply list_elem_of_singleton in Hn1 as ->.
    apply list_elem_of_singleton in Hn2 as ->. reflexivity.
Defined.

(** ** Paths *)

(** X13: [stripKnownSources] only ever removes the front of the path, and
    what it removes is nothing or the prefix of one of the roots: the
    result is a suffix of the path and never longer than it. *)
Theorem stripKnownSources_suffix (sources : list Source) (fileName : string) :
  exists removed,
    fileName = removed +:+ stripKnownSources sources fileName /\
    (removed = EmptyString \/ exists s, s ∈ sources /\ removed = rootPrefix s) /\
    String.length (stripKnownSources sources fileName) <= String.length fileName.
Proof.
  assert (exists removed,
            fileName = removed +:+ stripKnownSources sources fileName /\
            (removed = EmptyString \/ exists s, s ∈ sources /\ removed = rootPrefix s))
    as (removed & Heq & Hrem).
  { induction sources as [|s l IH]; simpl.
    - exists EmptyString. split; [done | by left].
    - fold (rootPrefix s). destruct (HasPrefix fileName (rootPrefix s)) eqn:E.
      + exists (rootPrefix s). unfold TrimPrefix. rewrite E. split.
        * by apply HasPrefix_split.
        * right. exists s. split; [left | done].
      + destruct IH as (removed & Heq & [-> | (s' & Hin & ->)]).
        * exists EmptyString. split; [done | by left].
        * exists (rootPrefix s'). split; [done |]. right. exists s'. split; [by right | done]. }
  exists removed. split; [done |]. split; [done |].
  rewrite Heq at 2. rewrite length_append. lia.
Qed.

Section PathFacts.

Implicit Types s t dir base : string.

Lemma TrimLeft_head t (c : ascii) :
  HasPrefix (TrimLeft t c) (String c EmptyString) = false.
Proof.
  induction t as [|d t IH]; simpl; [done |].
  destruct (Ascii.eqb d c) eqn:E; [done |]. simpl. by rewrite E.
Qed.

Lemma TrimLeft_id t (c : ascii) :
  HasPrefix t (String c EmptyString) = false -> TrimLeft t c = t.
Proof.
  destruct t as [|d t]; simpl; [done |]. by destruct (Ascii.eqb d c).
Qed.

Lemma HasSuffix_rev t (c : ascii) :
  HasSuffix (rev t) (String c EmptyString) = HasPrefix t (String c EmptyString).
Proof. unfold HasSuffix. by rewrite rev_involutive. Qed.

Lemma TrimRight_snoc dir (c : ascii) :
  HasSuffix dir (String c EmptyString) = false ->
  TrimRight (dir +:+ String c EmptyString) c = dir.
Proof.
  intros H. unfold TrimRight. rewrite rev_append. simpl.
  rewrite Ascii.eqb_refl. unfold HasSuffix in H. simpl in H.
  rewrite TrimLeft_id by done. apply rev_involutive.
Qed.

Lemma afterLastSep_none base :
  contains PathSeparator base = false -> afterLastSep base = 0.
Proof.
  induction base as [|d r IH]; simpl; [done |].
  intros H. apply orb_false_iff in H as [Hd Hr]. by rewrite (IH Hr), Hd.
Qed.

Lemma afterLastSep_dir dir base :
  contains PathSeparator base = false ->
  afterLastSep (dir +:+ String PathSeparator base) = S (String.length dir).
Proof.
  intros H. induction dir as [|d dir IH]; simpl.
  - by rewrite (afterLastSep_none base H).
  - simpl in IH. by rewrite IH.
Qed.

End PathFacts.

(** X14: the name under which [parseFile] files a profile entry is the
    directory part of its file name: for [dir/base], where [base] holds no
    separator and [dir] does not end with one, it is [dir]; for a file name
    without separator it is empty; and it never ends with a separator. *)
Theorem pkgPathOf_directory :
  let sep := String PathSeparator EmptyString in
  (forall fileName, HasSuffix (pkgPathOf fileName) sep = false) /\
  (forall base, contains PathSeparator base = false -> pkgPathOf base = EmptyString) /\
  (forall dir base,
      contains PathSeparator base = false ->
      HasSuffix dir sep = false ->
      pkgPathOf (dir +:+ sep +:+ base) = dir).
Proof.
  intros sep. subst sep. split; [| split].
  - intros fileName. unfold pkgPathOf, TrimRight.
    rewrite HasSuffix_rev. apply TrimLeft_head.
  - intros base H. unfold pkgPathOf, Split. cbv zeta.
    rewrite (afterLastSep_none base H). by destruct base.
  - intros dir base Hb Hd. unfold pkgPathOf, Split. cbv zeta.
    change (dir +:+ String PathSeparator EmptyString +:+ base)
      with (dir +:+ String PathSeparator base).
    rewrite (afterLastSep_dir dir base Hb).
    replace (dir +:+ String PathSeparator base)
      with ((dir +:+ String PathSeparator EmptyString) +:+ base)
      by (by rewrite append_assoc).
    replace (S (String.length dir))
      with (String.length (dir +:+ String PathSeparator EmptyString))
      by (rewrite length_append; simpl; lia).
    cbn [fst]. rewrite substring_append. by apply TrimRight_snoc.
Qed.

Lemma pkgPathOf_directory_witness :
  pkgPathOf "github.com/u/pkg/util/x.go" = "github.com/u/pkg/util" /\
  pkgPathOf "foo.go" = EmptyString.
Proof.
  destruct pkgPathOf_directory as (_ & Hbase & Hdir).
  split.
  - apply (Hdir "github.com/u/pkg/util" "x.go"); reflexivity.
  - apply Hbase. reflexivity.
Defined.

(** ** Trimmed names *)

Section Trimming.

Variable s1 : ascii -> bool.
Variable s2 : ascii -> ascii -> bool.
Variable s3 : ascii -> ascii -> ascii -> bool.

Lemma trimFront_facts (n : nat) : forall s : string,
  String.length s <= n ->
  (exists p, s = p +:+ trimFront s1 s2 s3 s) /\
  (forall a r, trimFront s1 s2 s3 s = String a r -> s1 a = false).
Proof.
  induction n as [|n IH]; intros s Hlen.
  - destruct s; simpl in Hlen; [| lia]. split; [by exists EmptyString | done].
  - destruct s as [|a r1]; [split; [by exists EmptyString | done] |].
    simpl in Hlen. simpl.
    destruct (s1 a) eqn:E1.
    { destruct (IH r1) as [[p Hp] Hh]; [lia |]. split; [| done].
      exists (String a p). simpl. by rewrite <-Hp. }
    destruct r1 as [|b r2].
    { split; [by exists EmptyString |]. by intros a' r' [= <- _]. }
    simpl in Hlen. destruct (s2 a b) eqn:E2.
    { destruct (IH r2) as [[p Hp] Hh]; [lia |]. split; [| done].
      exists (String a (String b p)). simpl. by rewrite <-Hp. }
    destruct r2 as [|c r3].
    { split; [by exists EmptyString |]. by intros a' r' [= <- _]. }
    simpl in Hlen. destruct (s3 a b c) eqn:E3.
    { destruct (IH r3) as [[p Hp] Hh]; [lia |]. split; [| done].
      exists (String a (String b (String c p))). simpl. by rewrite <-Hp. }
    split; [by exists EmptyString |]. by intros a' r' [= <- _].
Qed.

End Trimming.

Lemma TrimSpace_trimmed (s : string) :
  (forall a r, TrimSpace s = String a r -> space1 a = false) /\
  (forall a r, TrimSpace s = r +:+ String a EmptyString -> space1 a = false).
Proof.
  unfold TrimSpace, TrimRightSpace, TrimLeftSpace.
  set (Y := trimFront space1 space2 space3 s).
  set (X := trimFront space1 (fun a b => space2 b a) (fun a b c => space3 c b a) (rev Y)).
  destruct (trimFront_facts space1 space2 space3 _ s (le_n _)) as [_ HY].
  destruct (trimFront_facts space1 (fun a b => space2 b a) (fun a b c => space3 c b a)
              _ (rev Y) (le_n _)) as [[p Hp] HX].
  fold Y in HY. fold X in Hp, HX. split.
  - intros a r H. apply (f_equal rev) in H. rewrite rev_involutive in H. simpl in H.
    rewrite H in Hp. apply (f_equal rev) in Hp.
    rewrite rev_involutive, !rev_append, rev_involutive in Hp. simpl in Hp.
    by apply (HY a _ Hp).
  - intros a r H. apply (f_equal rev) in H.
    rewrite rev_involutive, rev_append in H. simpl in H. by apply (HX a _ H).
Qed.

(** X15: the class name [recvName] returns bears no ASCII white space at
    either end. *)
Theorem recvName_trimmed (v : fileVisitor) (n : FuncDecl) (cn : string) :
  recvName v n = Done cn ->
  (forall a r, cn = String a r -> space1 a = false) /\
  (forall a r, cn = r +:+ String a EmptyString -> space1 a = false).
Proof.
  unfold recvName. destruct (FuncDecl_Recv n) as [[|recv others]|]; simpl; [done | |].
  - destruct (slice _ _ _) as [text|msg]; simpl; [| done].
    intros [= <-]. apply TrimSpace_trimmed.
  - intros [= <-]. split.
    + by intros a r [= <- _].
    + intros a r H. apply (f_equal rev) in H. rewrite rev_append in H.
      simpl in H. by injection H as <- _.
Qed.

Lemma recvName_trimmed_witness :
  let data := exactly "func (w * Widget) g() {}" in
  recvName {| v_name := "w.go"; v_data := data; v_classes := ∅ |}
           {| FuncDecl_Name := "g"; FuncDecl_Recv := Some [mkField 8 16];
              FuncDecl_Line := 1; FuncDecl_EndLine := 1 |} = Done "Widget" /\
  space1 "W" = false /\ space1 "t" = false.
Proof.
  intros data.
  destruct (recvName_trimmed {| v_name := "w.go"; v_data := data; v_classes := ∅ |}
              {| FuncDecl_Name := "g"; FuncDecl_Recv := Some [mkField 8 16];
                 FuncDecl_Line := 1; FuncDecl_EndLine := 1 |} "Widget" eq_refl)
    as [Hfirst Hlast].
  split; [reflexivity |]. split.
  - exact (Hfirst "W"%char "idget" eq_refl).
  - exact (Hlast "t"%char "Widge" eq_refl).
Defined.

(** ** Where the packages and classes of a report come from *)

Section Provenance.

Variable findFile : string -> option string.
Variable readFile : string -> option ByteSlice.
Variable parseSource : string -> option File.

Implicit Types (lv : LoopVar) (cov : Coverage) (orders : nat -> RangeOrder).

(** With one loop variable per iteration, the loop appends the directories
    of the usable entries, in order. *)
Lemma parseEach_names orders (l : list Profile) : forall i cov cov',
  parseEach PerIteration findFile readFile parseSource orders i cov l = Done cov' ->
  Package_Name <$> Coverage_Packages cov'
  = (Package_Name <$> Coverage_Packages cov)
    ++ (pkgPathOf <$> List.filter (usable findFile readFile parseSource) (map FileName l)).
Proof.
  induction l as [|p l IH]; intros i cov cov' H.
  - injection H as <-. simpl. by rewrite app_nil_r.
  - rewrite parseEach_cons in H. simpl.
    destruct (parseFile_cases findFile readFile parseSource PerIteration (orders i)
                cov (FileName p))
      as [(Hu & _ & e0 & He) | [(Hu & _ & m0 & He) | (Hu & v & _ & He)]];
      rewrite He in H; simpl in H; [| done |]; rewrite Hu.
    + by apply IH in H.
    + apply IH in H. rewrite H. simpl. rewrite fmap_app, <-app_assoc. simpl.
      by destruct (basePackage_PerIteration cov (FileName p)) as [-> _].
Qed.

(** A property of the classes that every walked file's classes have is a
    property of all the classes of the report. *)
Lemma parseEach_classes (P : Class -> Prop) lv orders (l : list Profile) :
  (forall i, fair (orders i)) ->
  (forall p v k c, p ∈ l ->
      walked findFile readFile parseSource (FileName p) = Some v ->
      v_classes v !! k = Some c -> P c) ->
  forall i cov cov',
  Forall (fun q => Forall P (Package_Classes q)) (Coverage_Packages cov) ->
  parseEach lv findFile readFile parseSource orders i cov l = Done cov' ->
  Forall (fun q => Forall P (Package_Classes q)) (Coverage_Packages cov').
Proof.
  intros Hfair. induction l as [|p l IH]; intros HP i cov cov' Hcov H.
  - by injection H as <-.
  - rewrite parseEach_cons in H.
    destruct (parseFile_cases findFile readFile parseSource lv (orders i) cov (FileName p))
      as [(_ & _ & e0 & He) | [(_ & _ & m0 & He) | (_ & v & Hw & He)]];
      rewrite He in H; simpl in H; [| done |].
    + eapply IH; [| exact Hcov | exact H]. intros q w k c Hq. apply HP. by right.
    + eapply IH; [| | exact H]; [intros q w k c Hq; apply HP; by right |].
      simpl. apply Forall_app. split; [done |]. apply Forall_singleton. simpl.
      apply Forall_app. split.
      * unfold basePackage. destruct (rangeFind lv _ _) as [b|] eqn:E; simpl; [| constructor].
        apply rangeFind_elem in E. by eapply Forall_forall in Hcov.
      * apply Forall_forall. intros c Hc. unfold contribution in Hc.
        rewrite (Hfair i _) in Hc. apply list_elem_of_fmap in Hc as ([k c'] & -> & Hin).
        apply elem_of_map_to_list in Hin. eapply HP; [left | exact Hw | exact Hin].
Qed.

Lemma walked_class (fileName : string) (v : fileVisitor) (k : string) (c : Class) :
  walked findFile readFile parseSource fileName = Some v ->
  v_classes v !! k = Some c ->
  usable findFile readFile parseSource fileName = true /\
  Class_Filename c = fileName /\ Class_Name c = k /\ Class_Methods c <> [].
Proof.
  unfold walked, usable. intros Hw Hk.
  destruct (findFile fileName) as [path|]; simpl in *; [| done].
  destruct (ParseFile readFile parseSource path) as [parsed|]; simpl in *; [| done].
  destruct (readFile path) as [data|]; simpl in *; [| done].
  destruct (Walk _ parsed) as [v'|msg] eqn:HW; [| done]. injection Hw as ->.
  rewrite (Walk_from_empty parsed
             {| v_name := fileName; v_data := data; v_classes := ∅ |} v eq_refl HW) in Hk.
  destruct (declsNamed _ k parsed) as [|n ns]; [done |]. by injection Hk as <-.
Qed.

End Provenance.

(** X16: with one loop variable per iteration, the names of the packages
    of a report are the directories of the profile entries whose files
    were found and parsed, entry by entry in the order of the profile; so
    a name occurs as often as the directory has such files. *)
Theorem parseProfiles_package_names
    (findFile : string -> option string) (readFile : string -> option ByteSlice)
    (parseSource : string -> option File)
    (orders : nat -> RangeOrder) (cov cov' : Coverage) (profiles : list Profile) :
  parseProfiles PerIteration findFile readFile parseSource orders cov profiles = Done cov' ->
  Package_Name <$> Coverage_Packages cov'
  = pkgPathOf <$> List.filter (usable findFile readFile parseSource)
                              (map FileName profiles).
Proof.
  unfold parseProfiles. intros H.
  by rewrite (parseEach_names _ _ _ orders profiles _ _ _ H).
Qed.

Lemma parseProfiles_package_names_witness :
  exists cov',
    Example.run PerIteration Example.inOrder
      ["a/x.go"; "nope.go"; "foo.go"; "a/bad.go"; "a/v.go"] = Done cov' /\
    Package_Name <$> Coverage_Packages cov' = ["a"; EmptyString; "a"].
Proof.
  destruct (Example.run PerIteration Example.inOrder
              ["a/x.go"; "nope.go"; "foo.go"; "a/bad.go"; "a/v.go"]) as [cov'|msg] eqn:E;
    [| vm_compute in E; discriminate].
  exists cov'. split; [reflexivity |].
  rewrite (parseProfiles_package_names _ _ _ _ _ _ _ E). by vm_compute.
Defined.

(** X17: every class of a report was contributed by a profile entry whose
    file was found and parsed: it bears that entry's file name, and it
    holds at least one method, since a class is only created for a
    function declaration. *)
Theorem report_classes_come_from_profile (loopVar : LoopVar)
    (findFile : string -> option string) (readFile : string -> option ByteSlice)
    (parseSource : string -> option File)
    (orders : nat -> RangeOrder) (cov cov' : Coverage) (profiles : list Profile) :
  (forall i, fair (orders i)) ->
  parseProfiles loopVar findFile readFile parseSource orders cov profiles = Done cov' ->
  forall q c, q ∈ Coverage_Packages cov' -> c ∈ Package_Classes q ->
    Class_Methods c <> [] /\
    exists p, p ∈ profiles /\ Class_Filename c = FileName p /\
              usable findFile readFile parseSource (FileName p) = true.
Proof.
  intros Hfair H q c Hq Hc. unfold parseProfiles in H.
  eapply (parseEach_classes findFile readFile parseSource
            (fun c => Class_Methods c <> [] /\
                      exists p, p ∈ profiles /\ Class_Filename c = FileName p /\
                                usable findFile readFile parseSource (FileName p) = true))
    in H; [| exact Hfair | | constructor].
  - eapply Forall_forall in H; [| exact Hq]. by eapply Forall_forall in H.
  - intros p v k c' Hp Hw Hk.
    destruct (walked_class findFile readFile parseSource _ v k c' Hw Hk)
      as (Hu & Hf & _ & Hm).
    split; [done |]. by exists p.
Qed.

Lemma report_classes_come_from_profile_witness :
  exists cov',
    Example.run PerLoop Example.reversed ["foo.go"; "a/y.go"; "a/x.go"] = Done cov' /\
    forall q c, q ∈ Coverage_Packages cov' -> c ∈ Package_Classes q ->
      Class_Methods c <> [].
Proof.
  destruct (Example.run PerLoop Example.reversed ["foo.go"; "a/y.go"; "a/x.go"])
    as [cov'|msg] eqn:E; [| vm_compute in E; discriminate].
  exists cov'. split; [reflexivity |].
  intros q c Hq Hc.
  exact (proj1 (report_classes_come_from_profile _ _ _ _ _ _ _ _
                  (fun i l => reverse_Permutation l) E q c Hq Hc)).
Defined.


(** ** Files that are not found or do not parse *)

Section Unusable.

Variable findFile : string -> option string.
Variable readFile : string -> option ByteSlice.
Variable parseSource : string -> option File.

Implicit Types (lv : LoopVar) (cov : Coverage) (orders : nat -> RangeOrder).

Lemma unusable_iff (fileName : string) :
  findFile fileName = None \/
    (exists path, findFile fileName = Some path /\
                  ParseFile readFile parseSource path = None)
  <-> usable findFile readFile parseSource fileName = false.
Proof.
  unfold usable. destruct (findFile fileName) as [path|]; [| by split; [| left]].
  destruct (ParseFile readFile parseSource path) eqn:E; split; try done.
  - intros [[=] | (p & [= <-] & Hp)]. congruence.
  - intros _. right. eauto.
Qed.

(** The loop returns when no walk panics. *)
Lemma parseEach_returns lv orders (l : list Profile) :
  (forall q, q ∈ l -> usable findFile readFile parseSource (FileName q) = true ->
             is_Some (walked findFile readFile parseSource (FileName q))) ->
  forall i cov, returns (parseEach lv findFile readFile parseSource orders i cov l).
Proof.
  induction l as [|p l IH]; intros Hl i cov; [by eexists |].
  rewrite parseEach_cons.
  destruct (parseFile_cases findFile readFile parseSource lv (orders i) cov (FileName p))
    as [(_ & _ & e0 & ->) | [(Hu & Hw & _) | (_ & v & _ & ->)]]; simpl.
  - apply IH. intros q Hq. apply Hl. by right.
  - destruct (Hl p) as [v Hv]; [left | done | congruence].
  - apply IH. intros q Hq. apply Hl. by right.
Qed.

(** Every entry whose walk returns has its classes at the end of a
    package of the report. *)
Lemma parseEach_appears lv orders (l : list Profile) : forall i cov cov',
  parseEach lv findFile readFile parseSource orders i cov l = Done cov' ->
  forall j q v,
    l !! j = Some q ->
    walked findFile readFile parseSource (FileName q) = Some v ->
    exists pkg base,
      pkg ∈ Coverage_Packages cov' /\
      Package_Classes pkg = base ++ contribution (orders (i + j)) v.
Proof.
  induction l as [|p l IH]; intros i cov cov' H j q v Hj Hw; [done |].
  rewrite parseEach_cons in H.
  destruct (parseFile_cases findFile readFile parseSource lv (orders i) cov (FileName p))
    as [(_ & Hwp & e0 & He) | [(_ & _ & m0 & He) | (_ & vp & Hwp & He)]];
    rewrite He in H; simpl in H; [| done |].
  - destruct j as [|j]; simpl in Hj.
    + injection Hj as ->. congruence.
    + destruct (IH _ _ _ H j q v Hj Hw) as (pkg & base & Hin & Hc).
      exists pkg, base. by rewrite Nat.add_succ_r.
  - destruct j as [|j]; simpl in Hj.
    + injection Hj as ->. assert (vp = v) as -> by congruence.
      apply parseEach_grows in H as (_ & _ & more & Hp & _). simpl in Hp.
      exists (addClasses (basePackage lv cov (FileName q)) (contribution (orders i) v)),
             (Package_Classes (basePackage lv cov (FileName q))).
      rewrite Hp, Nat.add_0_r. split; [| done].
      apply elem_of_app. left. apply elem_of_app. right. left.
    + destruct (IH _ _ _ H j q v Hj Hw) as (pkg & base & Hin & Hc).
      exists pkg, base. by rewrite Nat.add_succ_r.
Qed.

End Unusable.

(** C4: for a file that is not found or does not parse, [parseFile]
    returns an error and leaves the accumulator as it is.  The run is then
    the run over the other entries: it returns whenever no walk of another
    entry panics, and its report holds one package for each of the other
    entries whose file was found and parsed, each such entry's classes
    standing at the end of a package, and no class of the file that was
    skipped. *)
Theorem parseProfiles_skips_unusable_file (loopVar : LoopVar)
    (findFile : string -> option string) (readFile : string -> option ByteSlice)
    (parseSource : string -> option File)
    (orders : nat -> RangeOrder) (cov : Coverage)
    (before after : list Profile) (bad : Profile) :
  findFile (FileName bad) = None \/
    (exists path, findFile (FileName bad) = Some path /\
                  ParseFile readFile parseSource path = None) ->
  let run := parseProfiles loopVar findFile readFile parseSource orders cov
                           (before ++ bad :: after) in
  let found := usable findFile readFile parseSource in
  let walk := walked findFile readFile parseSource in
  (forall order c, exists e,
      parseFile loopVar findFile readFile parseSource order c (FileName bad)
      = Done (Some e, c)) /\
  run = parseProfiles loopVar findFile readFile parseSource
                      (skipOrder (length before) orders) cov (before ++ after) /\
  ((forall q, q ∈ before ++ after -> found (FileName q) = true ->
              is_Some (walk (FileName q))) ->
   returns run) /\
  (forall cov', run = Done cov' ->
     length (Coverage_Packages cov')
       = length (List.filter found (map FileName (before ++ after))) /\
     (forall j q v,
         (before ++ bad :: after) !! j = Some q ->
         walk (FileName q) = Some v ->
         exists pkg base,
           pkg ∈ Coverage_Packages cov' /\
           Package_Classes pkg = base ++ contribution (orders j) v) /\
     ((forall i, fair (orders i)) ->
      forall pkg c, pkg ∈ Coverage_Packages cov' -> c ∈ Package_Classes pkg ->
                    Class_Filename c <> FileName bad)).
Proof.
  intros Hbad run found walk.
  assert (forall order c, exists e,
            parseFile loopVar findFile readFile parseSource order c (FileName bad)
            = Done (Some e, c)) as Hskip
    by (intros order c; by apply parseFile_unusable).
  pose proof (proj1 (unusable_iff findFile readFile parseSource _) Hbad) as Hu.
  assert (run = parseProfiles loopVar findFile readFile parseSource
                  (skipOrder (length before) orders) cov (before ++ after)) as Heq
    by (subst run; unfold parseProfiles; by rewrite parseEach_skip).
  split; [exact Hskip |]. split; [exact Heq |]. split.
  - intros Hothers. subst run. unfold parseProfiles. apply parseEach_returns.
    intros q Hq Hgood. apply Hothers; [| done].
    apply elem_of_app in Hq as [Hq | Hq]; apply elem_of_app; [by left |].
    apply elem_of_cons in Hq as [-> | Hq]; [| by right].
    subst found. simpl in *. congruence.
  - intros cov' Hrun. split; [| split].
    + rewrite Heq in Hrun.
      by destruct (parseProfiles_one_package_per_usable_file_aux _ _ _ _ _ _ _ _ Hrun)
        as (_ & _ & ->).
    + intros j q v Hj Hw. subst run. unfold parseProfiles in Hrun.
      apply (parseEach_appears findFile readFile parseSource _ _ _ _ _ _ Hrun j q v Hj Hw).
    + intros Hfair pkg c Hpkg Hc Hname. subst run. unfold parseProfiles in Hrun.
      eapply (parseEach_classes findFile readFile parseSource
                (fun c => Class_Filename c <> FileName bad)) in Hrun;
        [| exact Hfair | | constructor].
      * eapply Forall_forall in Hrun; [| exact Hpkg].
        eapply Forall_forall in Hrun; [| exact Hc]. done.
      * intros p v k c' _ Hw Hk Hn.
        destruct (walked_class findFile readFile parseSource _ v k c' Hw Hk)
          as (Hgood & Hf & _).
        rewrite Hf in Hn. rewrite Hn in Hgood. congruence.
Qed.

Lemma parseProfiles_skips_unusable_file_witness :
  exists cov' pkg c,
    Example.run PerLoop Example.inOrder ["a/x.go"; "a/bad.go"; "foo.go"] = Done cov' /\
    length (Coverage_Packages cov') = 2 /\
    pkg ∈ Coverage_Packages cov' /\ c ∈ Package_Classes pkg /\
    Class_Filename c = "foo.go".
Proof.
  destruct (parseProfiles_skips_unusable_file PerLoop Example.findFile Example.readFile
              Example.parseSource Example.inOrder Example.cov0
              [mkProfile "a/x.go" []] [mkProfile "foo.go" []] (mkProfile "a/bad.go" [])
              (or_intror (ex_intro _ "/go/src/a/bad.go" (conj eq_refl eq_refl))))
    as (_ & _ & Hreturns & Hreport).
  destruct Hreturns as [cov' Hrun].
  { intros q Hq _. apply elem_of_cons in Hq as [-> | Hq]; [by eexists |].
    apply list_elem_of_singleton in Hq as ->. by eexists. }
  destruct (Hreport cov' Hrun) as (Hlen & Happears & _).
  destruct (walked Example.findFile Example.readFile Example.parseSource "foo.go")
    as [v|] eqn:Hw; [| vm_compute in Hw; discriminate].
  destruct (Happears 2 (mkProfile "foo.go" []) v eq_refl Hw) as (pkg & base & Hin & Hcls).
  vm_compute in Hw. injection Hw as <-.
  exists cov', pkg, (classOf (mkVisitor "foo.go" (exactly Example.foo_go) ∅) "-" [Example.foo_f]).
  split; [exact Hrun |]. split; [exact Hlen |]. split; [exact Hin |].
  split; [| reflexivity].
  rewrite Hcls. apply elem_of_app. right. left.
Defined.
